(** * listexamples: the naming-convention classifier and the grouping of
    examples per package

    A shallow embedding of [listexamples.go].  Go strings are byte sequences,
    modelled by [string] (a list of 8-bit [ascii]); the two maps
    [funcs = map[string][]string] and [pkg = map[string]funcs] are finite maps
    with string keys; an index or a slice expression that Go would abort on is
    a [None] in the option monad. *)

From Stdlib Require Import ZArith Ascii String List Bool Lia.
From stdpp Require Import gmap strings list fin_maps.

Local Open Scope Z_scope.

(** ** Bytes and slices of Go strings *)

(** [s[i]] as an unsigned 8-bit value. *)
Definition byte_of (c : ascii) : Z := Z.of_N (N_of_ascii c).

(** [len(s)] *)
Definition len (s : string) : nat := String.length s.

(** [s[n:]] and [s[:n]] once the bounds have been checked. *)
Fixpoint string_drop (n : nat) (s : string) : string :=
  match n, s with
  | O, _ => s
  | S n', String _ s' => string_drop n' s'
  | S _, EmptyString => EmptyString
  end.

Fixpoint string_take (n : nat) (s : string) : string :=
  match n, s with
  | O, _ => EmptyString
  | S n', String c s' => String c (string_take n' s')
  | S _, EmptyString => EmptyString
  end.

(** The slice expression [s[n:]]: Go aborts with "slice bounds out of range"
    when [n > len(s)]. *)
Definition slice_from (s : string) (n : nat) : option string :=
  if (n <=? len s)%nat then Some (string_drop n s) else None.

(** Evaluation that may abort: [None] is a Go run-time panic. *)
Definition bind {A B : Type} (m : option A) (k : A -> option B) : option B :=
  match m with
  | Some a => k a
  | None => None
  end.

Notation "x <- m ;; k" := (bind m (fun x => k))
  (at level 100, m at next level, right associativity).

(** ** Package [strings] *)
Module Strings.

(** [strings.HasPrefix]:
    [len(s) >= len(prefix) && s[0:len(prefix)] == prefix] *)
Definition HasPrefix (s prefix : string) : bool :=
  (len prefix <=? len s)%nat && String.eqb (string_take (len prefix) s) prefix.

(** [strings.HasSuffix]:
    [len(s) >= len(suffix) && s[len(s)-len(suffix):] == suffix] *)
Definition HasSuffix (s suffix : string) : bool :=
  (len suffix <=? len s)%nat
  && String.eqb (string_drop (len s - len suffix) s) suffix.

(** [strings.TrimPrefix] *)
Definition TrimPrefix (s prefix : string) : string :=
  if HasPrefix s prefix then string_drop (len prefix) s else s.

(** [strings.TrimSuffix] *)
Definition TrimSuffix (s suffix : string) : string :=
  if HasSuffix s suffix then string_take (len s - len suffix) s else s.

(** [strings.Split(s, sep)] for a separator of one byte, the only form the
    program uses ([sep = "_"]): the segments between the occurrences of
    [sep], in order; one more segment than there are separators. *)
Fixpoint Split (s : string) (sep : ascii) : list string :=
  match s with
  | EmptyString => [EmptyString]
  | String c s' =>
      if Ascii.eqb c sep then EmptyString :: Split s' sep
      else match Split s' sep with
           | seg :: segs => String c seg :: segs
           | [] => [String c EmptyString]
           end
  end.

End Strings.

(** ** Package [unicode/utf8] *)
Module utf8.

Definition RuneError : Z := 0xFFFD.

(** Signed 32-bit wrap-around of [rune] arithmetic. *)
Definition int32 (z : Z) : Z := (z + 2 ^ 31) mod 2 ^ 32 - 2 ^ 31.

Definition maskx : Z := 0x3F.
Definition mask2 : Z := 0x1F.
Definition mask3 : Z := 0x0F.
Definition mask4 : Z := 0x07.
Definition locb : Z := 0x80.
Definition hicb : Z := 0xBF.

(** The entries of the table [first]: the low three bits give the length
    of the sequence, the high four bits select an accept range. *)
Definition xx : Z := 0xF1.
Definition as_ : Z := 0xF0.
Definition s1 : Z := 0x02.
Definition s2 : Z := 0x13.
Definition s3 : Z := 0x03.
Definition s4 : Z := 0x23.
Definition s5 : Z := 0x34.
Definition s6 : Z := 0x04.
Definition s7 : Z := 0x44.

(** [first[b]], information about the first byte of a sequence. *)
Definition first (b : Z) : Z :=
  if b <? 0x80 then as_
  else if b <? 0xC2 then xx
  else if b <? 0xE0 then s1
  else if b =? 0xE0 then s2
  else if b <? 0xED then s3
  else if b =? 0xED then s4
  else if b <? 0xF0 then s3
  else if b =? 0xF0 then s5
  else if b <? 0xF4 then s6
  else if b =? 0xF4 then s7
  else xx.

(** [acceptRanges[i]], the range [(lo, hi)] allowed for the second byte. *)
Definition acceptRanges (i : Z) : Z * Z :=
  if i =? 0 then (locb, hicb)
  else if i =? 1 then (0xA0, hicb)
  else if i =? 2 then (locb, 0x9F)
  else if i =? 3 then (0x90, hicb)
  else if i =? 4 then (locb, 0x8F)
  else (0, 0).

(** [utf8.DecodeRuneInString]: the first rune of [s] and its width in
    bytes; [(RuneError, 0)] for the empty string and [(RuneError, 1)] for
    an invalid encoding.  The indexed reads [s[1]], [s[2]], [s[3]] follow the
    length test [n < sz], so they are written by matching on [s]. *)
Definition DecodeRuneInString (s : string) : Z * Z :=
  match s with
  | EmptyString => (RuneError, 0)
  | String c0 t0 =>
      let n := Z.of_nat (len s) in
      let s0 := byte_of c0 in
      let x := first s0 in
      if as_ <=? x then
        let mask := Z.shiftr (int32 (Z.shiftl x 31)) 31 in
        (Z.lor (Z.land s0 (Z.lnot mask)) (Z.land RuneError mask), 1)
      else
        let sz := Z.land x 7 in
        let accept := acceptRanges (Z.shiftr x 4) in
        if n <? sz then (RuneError, 1)
        else match t0 with
        | EmptyString => (RuneError, 1)
        | String c1 t1 =>
            let b1 := byte_of c1 in
            if (b1 <? fst accept) || (snd accept <? b1) then (RuneError, 1)
            else if sz <=? 2 then
              (Z.lor (Z.shiftl (Z.land s0 mask2) 6) (Z.land b1 maskx), 2)
            else match t1 with
            | EmptyString => (RuneError, 1)
            | String c2 t2 =>
                let b2 := byte_of c2 in
                if (b2 <? locb) || (hicb <? b2) then (RuneError, 1)
                else if sz <=? 3 then
                  (Z.lor (Z.lor (Z.shiftl (Z.land s0 mask3) 12)
                                (Z.shiftl (Z.land b1 maskx) 6))
                         (Z.land b2 maskx), 3)
                else match t2 with
                | EmptyString => (RuneError, 1)
                | String c3 _ =>
                    let b3 := byte_of c3 in
                    if (b3 <? locb) || (hicb <? b3) then (RuneError, 1)
                    else
                      (Z.lor (Z.lor (Z.lor (Z.shiftl (Z.land s0 mask4) 18)
                                           (Z.shiftl (Z.land b1 maskx) 12))
                                    (Z.shiftl (Z.land b2 maskx) 6))
                             (Z.land b3 maskx), 4)
                end
            end
        end
  end.

(** [utf8.EncodeRune] as a string (it is [string(rune)]): the encoding the
    decoder is checked against. *)
Definition char_of (z : Z) : ascii := ascii_of_N (Z.to_N z).

Definition EncodeRune (r : Z) : string :=
  if (r <? 0) || (0x10FFFF <? r) || ((0xD800 <=? r) && (r <=? 0xDFFF)) then
    String (char_of 0xEF) (String (char_of 0xBF) (String (char_of 0xBD) EmptyString))
  else if r <=? 0x7F then String (char_of r) EmptyString
  else if r <=? 0x7FF then
    String (char_of (Z.lor 0xC0 (Z.shiftr r 6)))
      (String (char_of (Z.lor 0x80 (Z.land r maskx))) EmptyString)
  else if r <=? 0xFFFF then
    String (char_of (Z.lor 0xE0 (Z.shiftr r 12)))
      (String (char_of (Z.lor 0x80 (Z.land (Z.shiftr r 6) maskx)))
         (String (char_of (Z.lor 0x80 (Z.land r maskx))) EmptyString))
  else
    String (char_of (Z.lor 0xF0 (Z.shiftr r 18)))
      (String (char_of (Z.lor 0x80 (Z.land (Z.shiftr r 12) maskx)))
         (String (char_of (Z.lor 0x80 (Z.land (Z.shiftr r 6) maskx)))
            (String (char_of (Z.lor 0x80 (Z.land r maskx))) EmptyString))).

(** The number of bytes the first byte of a sequence announces. *)
Definition seqLen (c0 : ascii) : Z :=
  let x := first (byte_of c0) in
  if as_ <=? x then 1 else Z.land x 7.

(** The Unicode scalar values: [0..0x10FFFF] without the surrogates. *)
Definition validRune (r : Z) : bool :=
  (0 <=? r) && (r <=? 0x10FFFF) && negb ((0xD800 <=? r) && (r <=? 0xDFFF)).

(** [r] survives encoding and decoding, and its encoding has the length
    its first byte announces. *)
Definition roundtrip (r : Z) : bool :=
  negb (validRune r)
  || match EncodeRune r with
     | EmptyString => false
     | String c0 t0 =>
         let '(r', size) := DecodeRuneInString (String c0 t0) in
         (r' =? r) && (size =? Z.of_nat (len (String c0 t0)))
         && (seqLen c0 =? size)
     end.

(** [P] on all of [base .. base + 2^k - 1]. *)
Fixpoint all_in (k : nat) (base : Z) (P : Z -> bool) : bool :=
  match k with
  | O => P base
  | S k' => all_in k' base P && all_in k' (base + 2 ^ Z.of_nat k') P
  end.

End utf8.

(** ** Package [unicode] *)
Module unicode.

Definition MaxLatin1 : Z := 0xFF.

(** [properties[uint8(r)]&pLmask == pLl]: the lower-case letters of
    Latin-1 (a-z, the micro sign, and U+00DF-U+00FF without the division
    sign). *)
Definition latin1_lower (r : Z) : bool :=
  ((0x61 <=? r) && (r <=? 0x7A)) || (r =? 0xB5)
  || ((0xDF <=? r) && (r <=? 0xF6)) || ((0xF8 <=? r) && (r <=? 0xFF)).

(** [properties[uint8(r)]&pLmask == pLu]: the upper-case letters of
    Latin-1 (A-Z and U+00C0-U+00DE without the multiplication sign). *)
Definition latin1_upper (r : Z) : bool :=
  ((0x41 <=? r) && (r <=? 0x5A))
  || ((0xC0 <=? r) && (r <=? 0xD6)) || ((0xD8 <=? r) && (r <=? 0xDE)).

Section Tables.
(** The range tables [unicode.Lower] and [unicode.Upper] (categories Ll
    and Lu) come with the Go release and are not part of the program:
    they are parameters, read only above Latin-1. *)
Variable Lower Upper : Z -> bool.

(** [unicode.IsLower] *)
Definition IsLower (r : Z) : bool :=
  if r <=? MaxLatin1 then latin1_lower r else Lower r.

(** [unicode.IsUpper] *)
Definition IsUpper (r : Z) : bool :=
  if r <=? MaxLatin1 then latin1_upper r else Upper r.
End Tables.

(** A fragment of the two tables, used to run the program on concrete
    names: the basic Greek and Cyrillic letters. *)
Definition Lower_fragment (r : Z) : bool :=
  ((0x3B1 <=? r) && (r <=? 0x3C9)) || ((0x430 <=? r) && (r <=? 0x45F)).

Definition Upper_fragment (r : Z) : bool :=
  ((0x391 <=? r) && (r <=? 0x3A1)) || ((0x3A3 <=? r) && (r <=? 0x3A9))
  || ((0x400 <=? r) && (r <=? 0x42F)).

End unicode.

(** ** The program *)

Import Strings.

Definition tab : string := String (ascii_of_nat 9) EmptyString.

(** [type funcs map[string][]string] and [type pkg map[string]funcs] *)
Abbreviation funcs := (gmap string (list string)).
Abbreviation pkg := (gmap string funcs).

(** [m[key]] read from a map: the zero value (a nil slice, a nil map) when
    the key is absent. *)
Definition at_key (m : funcs) (key : string) : list string :=
  default [] (m !! key).

Definition pkg_at (m : pkg) (key : string) : funcs :=
  default ∅ (m !! key).

(** What the collaborators hand over: a function declaration is its name
    and its position as [fset.Position] prints it; a package has a name and
    files; [ast.PackageExports] tells whether anything is exported. *)
Record Declaration := mkDecl { decl_name : string; decl_pos : string }.

Record Package := mkPackage {
  Name : string;
  PackageExports : bool;
  Files : list (list Declaration)
}.

(** The branches of the declaration switch in [main], named as the comments
    on them do: tests and benchmarks are not processed, "the original
    function", "a normal example", "a sub-example for a normal function",
    "an example for a method on a type". *)
Inductive Kind :=
| TestDecl
| BenchmarkDecl
| PlainDeclaration (key : string)
| FunctionExample (key : string)
| SubExample (key : string)
| MethodExample (key : string).

Section Classifier.

(** The table [unicode.Lower] of the Go release. *)
Variable Lower : Z -> bool.

(** [isTest]: lines 138-147. *)
Definition isTest (name prefix : string) : option bool :=
  if negb (HasPrefix name prefix) then Some false
  else if (len name =? len prefix)%nat then Some true
  else
    rest <- slice_from name (len prefix) ;;
    let rune := fst (utf8.DecodeRuneInString rest) in
    Some (negb (unicode.IsLower Lower rune)).

(** [isExample]: lines 150-152. *)
Definition isExample (name : string) : option bool := isTest name "Example".

(** [isSubExample]: lines 155-158. *)
Definition isSubExample (name : string) : bool :=
  let nSlice := Split name "_"%char in
  (1 <? length nSlice)%nat.

(** [isMethodExample]: lines 162-165.  The index expression [[1]] aborts
    when [name] has no underscore. *)
Definition isMethodExample (name : string) : option bool :=
  seg <- Split name "_"%char !! 1%nat ;;
  let rune := fst (utf8.DecodeRuneInString seg) in
  Some (negb (unicode.IsLower Lower rune)).

(** [isTest(name, "Test") || isTest(name, "Benchmark")]: the right operand
    is evaluated only when the left one is false. *)
Definition isTestOrBenchmark (name : string) : option bool :=
  t <- isTest name "Test" ;;
  if t then Some true else isTest name "Benchmark".

(** [funcList[key] = append(funcList[key], filePos+name)] *)
Definition appendExample (key entry : string) (funcList : funcs) : funcs :=
  <[key := at_key funcList key ++ [entry]]> funcList.

(** The body of the [*ast.FuncDecl] case: lines 85-107. *)
Definition processDecl (d : Declaration) (funcList : funcs) : option funcs :=
  let name := decl_name d in
  let filePos := decl_pos d +:+ ":" +:+ tab in
  skip <- isTestOrBenchmark name ;;
  if negb skip then
    e <- isExample name ;;
    let funcList := if negb e then <[name := []]> funcList else funcList in
    e' <- isExample name ;;
    if e' then
      if isSubExample name then
        m <- isMethodExample name ;;
        funcList <-
          (if negb m then
             key <- Split (TrimPrefix name "Example") "_"%char !! 0%nat ;;
             Some (appendExample key (filePos +:+ name) funcList)
           else Some funcList) ;;
        m' <- isMethodExample name ;;
        if m' then
          let key := TrimPrefix name "Example" in
          k0 <- Split key "_"%char !! 0%nat ;;
          k1 <- Split name "_"%char !! 1%nat ;;
          let key := k0 +:+ "." +:+ k1 in
          Some (appendExample key (filePos +:+ name) funcList)
        else Some funcList
      else
        let key := TrimPrefix name "Example" in
        Some (appendExample key (filePos +:+ name) funcList)
    else Some funcList
  else Some funcList.

(** The entry [filePos+name] of a declaration, as lines 86 and 95-104
    build it. *)
Definition entryOf (d : Declaration) : string :=
  (decl_pos d +:+ ":" +:+ tab) +:+ decl_name d.

(** Which branch of [processDecl] a name takes, and the key it uses. *)
Definition classify (name : string) : option Kind :=
  t <- isTest name "Test" ;;
  if t then Some TestDecl else
  b <- isTest name "Benchmark" ;;
  if b then Some BenchmarkDecl else
  e <- isExample name ;;
  if negb e then Some (PlainDeclaration name) else
  if isSubExample name then
    m <- isMethodExample name ;;
    k0 <- Split (TrimPrefix name "Example") "_"%char !! 0%nat ;;
    if m then
      k1 <- Split name "_"%char !! 1%nat ;;
      Some (MethodExample (k0 +:+ "." +:+ k1))
    else Some (SubExample k0)
  else Some (FunctionExample (TrimPrefix name "Example")).

(** What each branch does to the map. *)
Definition record (k : Kind) (entry : string) (funcList : funcs) : funcs :=
  match k with
  | TestDecl | BenchmarkDecl => funcList
  | PlainDeclaration key => <[key := []]> funcList
  | FunctionExample key | SubExample key | MethodExample key =>
      appendExample key entry funcList
  end.

(** The key a branch writes to, if any, and whether it appends an entry. *)
Definition ownerKey (k : Kind) : option string :=
  match k with
  | TestDecl | BenchmarkDecl => None
  | PlainDeclaration key | FunctionExample key | SubExample key
  | MethodExample key => Some key
  end.

Definition isExampleKind (k : Kind) : bool :=
  match k with
  | FunctionExample _ | SubExample _ | MethodExample _ => true
  | _ => false
  end.

(** [ast.Inspect] over one file, then the loop over [p.Files]:
    lines 81-111. *)
Fixpoint processFile (ds : list Declaration) (funcList : funcs) : option funcs :=
  match ds with
  | [] => Some funcList
  | d :: ds' => funcList' <- processDecl d funcList ;; processFile ds' funcList'
  end.

Fixpoint processFiles (fs : list (list Declaration)) (funcList : funcs)
  : option funcs :=
  match fs with
  | [] => Some funcList
  | f :: fs' => funcList' <- processFile f funcList ;; processFiles fs' funcList'
  end.

(** Where the content of a map comes from: every key is the key of a
    declaration of [ds] that is no test or benchmark, and every entry is the
    entry of an example declaration of [ds] with that key. *)
Definition comesFrom (ds : list Declaration) (funcList : funcs) : Prop :=
  forall (key : string) (l : list string),
    funcList !! key = Some l ->
    (exists d k, d ∈ ds /\ classify (decl_name d) = Some k /\
       ownerKey k = Some key) /\
    (forall e, e ∈ l ->
       exists d k, d ∈ ds /\ classify (decl_name d) = Some k /\
         isExampleKind k = true /\ ownerKey k = Some key /\ e = entryOf d).

(** The body of [for k, v := range funcList]: line 118. *)
Definition unionStep (existing : funcs) (kv : string * list string) : funcs :=
  <[kv.1 := at_key existing kv.1 ++ kv.2]> existing.

(** The loop of lines 117-119 for one iteration order of [funcList]. *)
Definition unionInto (existing : funcs) (kvs : list (string * list string))
  : funcs :=
  foldl unionStep existing kvs.

(** Lines 116-122. *)
Definition aggregate (pkgName : string) (funcList : funcs) (pkgList : pkg) : pkg :=
  if negb (size (pkg_at pkgList pkgName) =? 0)%nat then
    <[pkgName := unionInto (pkg_at pkgList pkgName) (map_to_list funcList)]> pkgList
  else <[pkgName := funcList]> pkgList.

(** Lines 71-75: the name under which a package is grouped. *)
Definition groupName (pName : string) : string :=
  if HasSuffix pName "_test" then TrimSuffix pName "_test" else pName.

Section Walk.
(** [$GOPATH] and [os.PathSeparator]. *)
Variables gopath ps : string.

(** Lines 77-78. *)
Definition pkgKey (pName path : string) : string :=
  let pPath := TrimPrefix path (gopath +:+ ps +:+ "src" +:+ ps) in
  pName +:+ " in " +:+ pPath.

(** The body of [for _, p := range pkgs]: lines 71-122. *)
Definition processPackage (path : string) (p : Package) (pkgList : pkg)
  : option pkg :=
  let pName := groupName (Name p) in
  let pkgName := pkgKey pName path in
  funcList <- (if PackageExports p then processFiles (Files p) ∅ else Some ∅) ;;
  Some (aggregate pkgName funcList pkgList).

Fixpoint processDir (path : string) (pkgs : list Package) (pkgList : pkg)
  : option pkg :=
  match pkgs with
  | [] => Some pkgList
  | p :: pkgs' =>
      pkgList' <- processPackage path p pkgList ;; processDir path pkgs' pkgList'
  end.

(** [filepath.Walk]: the directories in the order they are visited, each
    with the packages [parser.ParseDir] finds in it. *)
Fixpoint walk (dirs : list (string * list Package)) (pkgList : pkg)
  : option pkg :=
  match dirs with
  | [] => Some pkgList
  | (path, pkgs) :: dirs' =>
      pkgList' <- processDir path pkgs pkgList ;; walk dirs' pkgList'
  end.
End Walk.

End Classifier.

(** ** The rest of the program *)

(** The entries a key collects from a file, in the order of the file: the
    entries of the example declarations that [classify] gives that key. *)
Definition ownsExample (Lower : Z -> bool) (key : string) (d : Declaration) : bool :=
  match classify Lower (decl_name d) with
  | Some k =>
      isExampleKind k
      && match ownerKey k with Some key' => String.eqb key' key | None => false end
  | None => false
  end.

Definition examplesFor (Lower : Z -> bool) (key : string) (ds : list Declaration)
  : list string :=
  List.map entryOf (List.filter (ownsExample Lower key) ds).

(** A declaration that takes the branch of line 89 for [key]. *)
Definition resets (Lower : Z -> bool) (key : string) (d : Declaration) : bool :=
  match classify Lower (decl_name d) with
  | Some (PlainDeclaration key') => String.eqb key' key
  | _ => false
  end.

(** [x] occurs in [out] as a run of consecutive bytes. *)
Definition occursIn (x out : string) : Prop :=
  exists pre post, out = pre +:+ x +:+ post.

(** The strings of a list one after the other. *)
Definition joinAll (l : list string) : string :=
  foldr String.append EmptyString l.

Definition newline : string := String (ascii_of_nat 10) EmptyString.
Definition dquote : string := String (ascii_of_nat 34) EmptyString.

(** *** [func (p pkg) String() string]: lines 168-188

    [range] over a map visits it in an order of its own choosing: the loops
    are written over the maps as lists in the order visited. *)

(** Lines 179-181: [out += fmt.Sprintf("\t\t%s\n", m)]. *)
Definition renderEntry (out m : string) : string :=
  out +:+ (tab +:+ tab +:+ m +:+ newline).

(** Lines 173-184, the body of [for i, j := range v]. *)
Definition renderOwner (k : string) (out : string) (ij : string * list string)
  : string :=
  let i := ij.1 in
  let j := ij.2 in
  let out :=
    if String.eqb i "" then out +:+ (tab +:+ "Package level example:" +:+ newline)
    else out +:+ (tab +:+ i +:+ newline) in
  if negb (length j =? 0)%nat then foldl renderEntry out j
  else out +:+ (tab +:+ tab +:+ "No Examples for function " +:+ i
                +:+ " in package " +:+ k +:+ newline).

(** Lines 171-185, the body of [for k, v := range p]. *)
Definition renderGroup (out : string) (kv : string * list (string * list string))
  : string :=
  let k := kv.1 in
  let out := out +:+ ("Package " +:+ k +:+ newline) in
  foldl (renderOwner k) out kv.2.

(** Lines 169-187 for one order of visit. *)
Definition renderGroups (groups : list (string * list (string * list string)))
  : string :=
  foldl renderGroup EmptyString groups.

(** One order of visit of a collection. *)
Definition groupsOf (p : pkg) : list (string * list (string * list string)) :=
  List.map (fun kv => (kv.1, map_to_list kv.2)) (map_to_list p).

Definition pkg_String (p : pkg) : string := renderGroups (groupsOf p).

(** What the loops add for one owner and for one group. *)
Definition ownerBlock (k : string) (ij : string * list string) : string :=
  (tab +:+ (if String.eqb ij.1 "" then "Package level example:" else ij.1)
   +:+ newline)
  +:+ match ij.2 with
      | [] => tab +:+ tab +:+ "No Examples for function " +:+ ij.1
              +:+ " in package " +:+ k +:+ newline
      | _ => joinAll (List.map (fun m => tab +:+ tab +:+ m +:+ newline) ij.2)
      end.

Definition groupBlock (kv : string * list (string * list string)) : string :=
  ("Package " +:+ kv.1 +:+ newline) +:+ joinAll (List.map (ownerBlock kv.1) kv.2).

(** Two orders of visit of the same collection: the groups in another order,
    and in each group the owners in another order. *)
Definition sameCollection
  (g1 g2 : list (string * list (string * list string))) : Prop :=
  exists g, g1 ≡ₚ g /\
    Forall2 (fun a b => a.1 = b.1 /\ a.2 ≡ₚ b.2) g g2.

(** *** [filepath.Walk] with the callback of lines 60-125

    What [Walk] finds at a path: a file, or a directory with the packages
    [parser.ParseDir] reads in it and its entries in the order [Walk] reads
    them (sorted by name).  Reading and parsing are taken to succeed. *)
#[warnings="-register-all"]
Inductive FsNode :=
| FsFile (path : string)
| FsDir (path : string) (pkgs : list Package) (entries : list FsNode).

(** What the callback returns to [Walk]: [nil] or [filepath.SkipDir]. *)
Inductive WalkErr := ErrNil | SkipDir.

(** [filepath.walk]: the callback runs on the node (line 62 returns
    [SkipDir] for a file; a directory is parsed and gives [nil]); then the
    entries of a directory in order.  An error from an entry ends the loop and
    is returned, unless the entry is a directory and the error is [SkipDir].
    The result lists the directories parsed, in order. *)
Fixpoint fp_walk (n : FsNode) : list (string * list Package) * WalkErr :=
  match n with
  | FsFile _ => ([], SkipDir)
  | FsDir path pkgs entries =>
      let visited :=
        (fix loop (es : list FsNode) : list (string * list Package) * WalkErr :=
           match es with
           | [] => ([], ErrNil)
           | e :: es' =>
               let r := fp_walk e in
               match r.2, e with
               | SkipDir, FsFile _ => (r.1, SkipDir)
               | _, _ => let r' := loop es' in (r.1 ++ r'.1, r'.2)
               end
           end) entries in
      ((path, pkgs) :: visited.1, visited.2)
  end.

(** The loop of [filepath.walk] over the entries of a directory, by itself. *)
Definition walkEntries (entries : list FsNode)
  : list (string * list Package) * WalkErr :=
  (fix loop (es : list FsNode) : list (string * list Package) * WalkErr :=
     match es with
     | [] => ([], ErrNil)
     | e :: es' =>
         let r := fp_walk e in
         match r.2, e with
         | SkipDir, FsFile _ => (r.1, SkipDir)
         | _, _ => let r' := loop es' in (r.1 ++ r'.1, r'.2)
         end
     end) entries.

(** [filepath.Walk]: [SkipDir] from the root is no error. *)
Definition Walk (root : FsNode) : list (string * list Package) :=
  (fp_walk root).1.

(** *** [main]: lines 27-130 *)

(** What [main] reads from its environment: [os.Executable()] and
    [filepath.Abs] with their error, [os.Args], [$GOPATH],
    [build.Default.GOPATH], [os.PathSeparator] and the file system. *)
Record Invocation := mkInvocation {
  Executable : string + string;
  Args : list string;
  Abs : string -> string + string;
  GOPATH : string;
  DefaultGOPATH : string;
  PathSeparator : ascii;
  Lstat : string -> FsNode
}.

(** How [main] ends: [log.Fatal], [os.Exit(1)] after the usage message,
    the report on standard output, or a run-time panic. *)
Inductive Outcome :=
| Fatal (msg : string)
| Exit1 (stdout : string)
| Printed (stdout : string)
| Panic.

(** Line 38. *)
Definition usage (cmd ps : string) : string :=
  "Incorrect usage:" +:+ newline +:+ "Please use " +:+ dquote +:+ cmd
  +:+ " path" +:+ ps +:+ "to" +:+ ps +:+ "search" +:+ ps +:+ dquote +:+ newline.

(** Lines 34-35: the last segment of the path of the executable. *)
Definition cmdName (cmd : string) (sep : ascii) : option string :=
  let cmdSlice := Split cmd sep in
  cmdSlice !! (length cmdSlice - 1)%nat.

Definition main (Lower : Z -> bool) (inv : Invocation) : Outcome :=
  let ps := String (PathSeparator inv) EmptyString in
  match Executable inv with
  | inr err => Fatal err
  | inl cmd =>
      match cmdName cmd (PathSeparator inv) with
      | None => Panic
      | Some cmd =>
          if negb (length (Args inv) =? 2)%nat then Exit1 (usage cmd ps)
          else
            match Args inv !! 1%nat with
            | None => Panic
            | Some arg =>
                match Abs inv arg with
                | inr err => Fatal err
                | inl searchPath =>
                    let gopath :=
                      if String.eqb (GOPATH inv) "" then DefaultGOPATH inv
                      else GOPATH inv in
                    if negb (HasPrefix searchPath gopath)
                    then Fatal "search path is not in GOPATH"
                    else
                      match walk Lower gopath ps (Walk (Lstat inv searchPath)) ∅ with
                      | None => Panic
                      | Some pkgList => Printed (pkg_String pkgList +:+ newline)
                      end
                end
            end
      end
  end.

(** * Properties *)

(** ** Slices, prefixes and suffixes *)

Lemma bind_Some {A B : Type} (m : option A) (k : A -> option B) (b : B) :
  bind m k = Some b <-> exists a, m = Some a /\ k a = Some b.
Proof.
  destruct m as [a|]; simpl; split.
  - intros H. exists a. split; [reflexivity | exact H].
  - intros (a' & Ha & Hk). injection Ha as ->. exact Hk.
  - discriminate.
  - intros (a' & Ha & _). discriminate.
Qed.

Lemma string_app_cons (c : ascii) (s t : string) :
  String c s +:+ t = String c (s +:+ t).
Proof. reflexivity. Qed.

Lemma string_app_nil_l (t : string) : EmptyString +:+ t = t.
Proof. reflexivity. Qed.

Ltac string_simpl :=
  simpl; rewrite ?string_app_cons, ?string_app_nil_l; simpl.

Lemma len_app (s t : string) : len (s +:+ t) = (len s + len t)%nat.
Proof.
  unfold len. induction s as [|c s IH]; string_simpl; [reflexivity | now rewrite IH].
Qed.

Lemma string_take_drop (n : nat) (s : string) :
  string_take n s +:+ string_drop n s = s.
Proof.
  revert s. induction n as [|n IH]; intros [|c s]; string_simpl; try reflexivity.
  f_equal. apply IH.
Qed.

Lemma string_take_app (p r : string) : string_take (len p) (p +:+ r) = p.
Proof. induction p as [|c p IH]; string_simpl; [reflexivity | now rewrite IH]. Qed.

Lemma string_drop_app (p r : string) : string_drop (len p) (p +:+ r) = r.
Proof. induction p as [|c p IH]; string_simpl; [reflexivity | exact IH]. Qed.

Lemma string_app_assoc (s t u : string) : (s +:+ t) +:+ u = s +:+ t +:+ u.
Proof. induction s as [|c s IH]; string_simpl; [reflexivity | now rewrite IH]. Qed.

Lemma len_0 (s : string) : len s = 0%nat -> s = EmptyString.
Proof. destruct s; [reflexivity | discriminate]. Qed.

Lemma string_app_inv_tail (x r r' : string) : r +:+ x = r' +:+ x -> r = r'.
Proof.
  intros H.
  assert (Hlen : len r = len r').
  { apply (f_equal len) in H. rewrite !len_app in H. lia. }
  revert r' H Hlen. induction r as [|c r IH]; intros [|c' r'] H Hlen;
    try discriminate; [reflexivity |].
  rewrite !string_app_cons in H. injection H as -> H.
  f_equal. apply IH; [exact H | simpl in Hlen; lia].
Qed.

Lemma HasPrefix_spec (s prefix : string) :
  HasPrefix s prefix = true <-> exists rest, s = prefix +:+ rest.
Proof.
  unfold HasPrefix. rewrite andb_true_iff, Nat.leb_le, String.eqb_eq. split.
  - intros [_ H]. exists (string_drop (len prefix) s).
    pose proof (string_take_drop (len prefix) s) as Htd.
    rewrite H in Htd. now symmetry.
  - intros [rest ->]. rewrite len_app, string_take_app. split; [lia | reflexivity].
Qed.

Lemma HasSuffix_spec (s suffix : string) :
  HasSuffix s suffix = true <-> exists front, s = front +:+ suffix.
Proof.
  unfold HasSuffix. rewrite andb_true_iff, Nat.leb_le, String.eqb_eq. split.
  - intros [_ H]. exists (string_take (len s - len suffix) s).
    pose proof (string_take_drop (len s - len suffix) s) as Htd.
    rewrite H in Htd. now symmetry.
  - intros [front ->]. rewrite len_app.
    replace (len front + len suffix - len suffix)%nat with (len front) by lia.
    rewrite string_drop_app. split; [lia | reflexivity].
Qed.

Lemma HasPrefix_app (prefix rest : string) : HasPrefix (prefix +:+ rest) prefix = true.
Proof. apply HasPrefix_spec. now exists rest. Qed.

Lemma HasSuffix_app (front suffix : string) : HasSuffix (front +:+ suffix) suffix = true.
Proof. apply HasSuffix_spec. now exists front. Qed.

Lemma TrimPrefix_app (prefix rest : string) : TrimPrefix (prefix +:+ rest) prefix = rest.
Proof. unfold TrimPrefix. rewrite HasPrefix_app. apply string_drop_app. Qed.

Lemma TrimSuffix_app (front suffix : string) : TrimSuffix (front +:+ suffix) suffix = front.
Proof.
  unfold TrimSuffix. rewrite HasSuffix_app, len_app.
  replace (len front + len suffix - len suffix)%nat with (len front) by lia.
  apply string_take_app.
Qed.

Lemma slice_from_app (prefix rest : string) :
  slice_from (prefix +:+ rest) (len prefix) = Some rest.
Proof.
  unfold slice_from. rewrite len_app.
  destruct (Nat.leb_spec (len prefix) (len prefix + len rest)) as [_|H]; [|lia].
  now rewrite string_drop_app.
Qed.

(** ** Segments *)

Lemma Split_cons (s : string) (sep : ascii) :
  exists seg segs, Split s sep = seg :: segs.
Proof.
  induction s as [|c s (seg & segs & IH)]; simpl.
  - now exists EmptyString, [].
  - destruct (Ascii.eqb c sep).
    + now exists EmptyString, (Split s sep).
    + rewrite IH. now exists (String c seg), segs.
Qed.

Lemma Split_lookup_0 (s : string) (sep : ascii) :
  exists seg, Split s sep !! 0%nat = Some seg.
Proof. destruct (Split_cons s sep) as (seg & segs & ->). now exists seg. Qed.

(** A prefix without separator stays in front of the first segment. *)
Lemma Split_app_no_sep (p s : string) (sep : ascii) (seg : string) (segs : list string) :
  Split p sep = [p] -> Split s sep = seg :: segs ->
  Split (p +:+ s) sep = (p +:+ seg) :: segs.
Proof.
  revert seg segs. induction p as [|c p IH]; intros seg segs Hp Hs; string_simpl.
  - exact Hs.
  - simpl in Hp. destruct (Ascii.eqb c sep); [discriminate |].
    destruct (Split_cons p sep) as (seg' & segs' & Hp'). rewrite Hp' in Hp.
    injection Hp as -> ->. now rewrite (IH _ _ Hp' Hs).
Qed.

Lemma Split_Example (s seg : string) (segs : list string) :
  Split s "_"%char = seg :: segs ->
  Split ("Example" +:+ s) "_"%char = ("Example" +:+ seg) :: segs.
Proof. intros H. now apply Split_app_no_sep. Qed.

(** ** Decoding *)

Lemma first_cases (b : Z) :
  In (utf8.first b)
     [utf8.as_; utf8.xx; utf8.s1; utf8.s2; utf8.s3; utf8.s4; utf8.s5; utf8.s6;
      utf8.s7].
Proof.
  unfold utf8.first.
  repeat match goal with |- context [if ?c then _ else _] => destruct c end;
    simpl; tauto.
Qed.

Lemma len_cons (c : ascii) (s : string) :
  Z.of_nat (len (String c s)) = 1 + Z.of_nat (len s).
Proof. unfold len. simpl String.length. lia. Qed.

(** The decoder reads no further than the first byte announces. *)
Lemma DecodeRuneInString_app (c0 : ascii) (s' t : string) :
  utf8.seqLen c0 <= Z.of_nat (len (String c0 s')) ->
  utf8.DecodeRuneInString (String c0 s' +:+ t) =
  utf8.DecodeRuneInString (String c0 s').
Proof.
  intros H. rewrite string_app_cons. unfold utf8.seqLen in H.
  unfold utf8.DecodeRuneInString. cbv zeta in *.
  pose proof (first_cases (byte_of c0)) as Hx. simpl In in Hx.
  rewrite !len_cons in *.
  decompose [or] Hx; clear Hx; try contradiction;
    match goal with E : _ = utf8.first _ |- _ => rewrite <- E in * end;
    try reflexivity.
  all: match goal with
       | |- context [Z.land ?a 7] =>
           let v := eval vm_compute in (Z.land a 7) in
           change (Z.land a 7) with v in *
       end.
  all: match goal with
       | |- context [utf8.as_ <=? ?a] =>
           let v := eval vm_compute in (utf8.as_ <=? a) in
           change (utf8.as_ <=? a) with v in *
       end.
  all: cbv iota in *.
  all: destruct s' as [|c1 [|c2 [|c3 s']]];
    rewrite ?string_app_cons, ?string_app_nil_l, ?len_cons in *;
    change (Z.of_nat (len "")) with 0 in *; try lia.
  all: repeat match goal with
       | |- context [1 + ?a <? ?k] => destruct (Z.ltb_spec (1 + a) k); [lia|]
       | |- context [Z.leb ?a ?b] =>
           let v := eval vm_compute in (Z.leb a b) in change (Z.leb a b) with v
       end.
  all: cbv iota; reflexivity.
Qed.

Lemma all_in_spec (k : nat) (P : Z -> bool) (base : Z) :
  utf8.all_in k base P = true ->
  forall i, base <= i < base + 2 ^ Z.of_nat k -> P i = true.
Proof.
  revert base. induction k as [|k IH]; intros base H i Hi.
  - simpl in *. replace i with base by lia. exact H.
  - simpl utf8.all_in in H. apply andb_true_iff in H as [Hlo Hhi].
    rewrite Nat2Z.inj_succ, Z.pow_succ_r in Hi by lia.
    destruct (Z.lt_ge_cases i (base + 2 ^ Z.of_nat k)) as [Hlt|Hge].
    + apply (IH base Hlo). lia.
    + apply (IH _ Hhi). lia.
Qed.

(** Every code point up to [0x10FFFF], one by one. *)
Lemma roundtrip_checked :
  utf8.all_in 20 0 utf8.roundtrip && utf8.all_in 16 (2 ^ 20) utf8.roundtrip = true.
Proof. vm_cast_no_check (eq_refl true). Qed.

Lemma roundtrip_outside (r : Z) :
  r < 0 \/ 2 ^ 20 + 2 ^ 16 <= r -> utf8.roundtrip r = true.
Proof.
  intros H. unfold utf8.roundtrip.
  assert (Hv : utf8.validRune r = false).
  { unfold utf8.validRune.
    destruct (Z.leb_spec 0 r); [|reflexivity].
    destruct (Z.leb_spec r 1114111); [lia | reflexivity]. }
  rewrite Hv. reflexivity.
Qed.

Lemma roundtrip_all (r : Z) : utf8.roundtrip r = true.
Proof.
  destruct (Z.lt_ge_cases r 0) as [Hneg|Hpos];
    [apply roundtrip_outside; lia |].
  destruct (Z.lt_ge_cases r (2 ^ 20 + 2 ^ 16)) as [H16|H16];
    [| apply roundtrip_outside; lia].
  pose proof roundtrip_checked as H. apply andb_true_iff in H as [Hlo Hhi].
  destruct (Z.lt_ge_cases r (2 ^ 20)) as [H20|H20].
  - apply (all_in_spec 20 utf8.roundtrip 0 Hlo). lia.
  - apply (all_in_spec 16 utf8.roundtrip (2 ^ 20) Hhi). lia.
Qed.

(** Decoding the encoding of a scalar value gives the value back, whatever
    follows it. *)
Lemma DecodeRuneInString_EncodeRune (r : Z) (t : string) :
  utf8.validRune r = true ->
  exists size : Z,
    utf8.DecodeRuneInString (utf8.EncodeRune r +:+ t) = (r, size) /\ 0 < size.
Proof.
  intros Hv. pose proof (roundtrip_all r) as H. unfold utf8.roundtrip in H.
  rewrite Hv in H. cbn [negb orb] in H.
  destruct (utf8.EncodeRune r) as [|c0 t0]; [discriminate |].
  destruct (utf8.DecodeRuneInString (String c0 t0)) as [r' size] eqn:Hd.
  apply andb_true_iff in H as [H Hseq]. apply andb_true_iff in H as [Hr Hsz].
  apply Z.eqb_eq in Hr, Hsz, Hseq. subst r'.
  exists size. split; [| rewrite Hsz, len_cons; lia].
  rewrite DecodeRuneInString_app; [exact Hd | lia].
Qed.

Lemma EncodeRune_nonempty (r : Z) : utf8.EncodeRune r <> EmptyString.
Proof.
  unfold utf8.EncodeRune.
  repeat match goal with |- context [if ?c then _ else _] => destruct c end;
    discriminate.
Qed.

(** ** The predicates of the classifier *)

Section ClassifierProperties.

Variable Lower : Z -> bool.

Lemma isTest_total (name prefix : string) :
  exists b, isTest Lower name prefix = Some b.
Proof.
  unfold isTest. destruct (HasPrefix name prefix) eqn:Hp; simpl; [|eauto].
  destruct (len name =? len prefix)%nat; [eauto |].
  apply HasPrefix_spec in Hp as [rest ->].
  rewrite slice_from_app. simpl. eauto.
Qed.

Lemma isTest_true_iff (name prefix : string) :
  isTest Lower name prefix = Some true <->
  exists rest, name = prefix +:+ rest /\
    (rest = EmptyString \/
     unicode.IsLower Lower (fst (utf8.DecodeRuneInString rest)) = false).
Proof.
  unfold isTest. split.
  - destruct (HasPrefix name prefix) eqn:Hp; simpl; [|discriminate].
    apply HasPrefix_spec in Hp as [rest ->]. intros H. exists rest.
    split; [reflexivity |].
    destruct (Nat.eqb_spec (len (prefix +:+ rest)) (len prefix)) as [Hl|Hl].
    + left. apply len_0. rewrite len_app in Hl. lia.
    + right. rewrite slice_from_app in H. simpl in H.
      injection H as H. now apply negb_true_iff.
  - intros (rest & -> & H). rewrite HasPrefix_app. simpl.
    destruct (Nat.eqb_spec (len (prefix +:+ rest)) (len prefix)) as [Hl|Hl];
      [reflexivity |].
    rewrite slice_from_app. simpl. destruct H as [-> | H].
    + rewrite len_app in Hl. simpl in Hl. lia.
    + now rewrite H.
Qed.

Lemma isTest_false_iff (name prefix : string) :
  isTest Lower name prefix = Some false <->
  isTest Lower name prefix <> Some true.
Proof.
  destruct (isTest_total name prefix) as [[|] ->]; split; congruence.
Qed.

Lemma isExample_inv (name : string) :
  isExample Lower name = Some true -> exists rest, name = "Example" +:+ rest.
Proof.
  unfold isExample. intros H. apply isTest_true_iff in H as (rest & -> & _).
  now exists rest.
Qed.

(** An example name is neither a test nor a benchmark. *)
Lemma isTest_Example (rest : string) :
  isTest Lower ("Example" +:+ rest) "Test" = Some false /\
  isTest Lower ("Example" +:+ rest) "Benchmark" = Some false.
Proof.
  split; apply isTest_false_iff; intros H;
    apply isTest_true_iff in H as (r & H & _); discriminate H.
Qed.

Lemma isSubExample_Split (name : string) :
  isSubExample name = true <->
  exists seg1 seg2 more, Split name "_"%char = seg1 :: seg2 :: more.
Proof.
  unfold isSubExample.
  destruct (Split_cons name "_"%char) as (seg & segs & ->).
  destruct segs as [|seg2 more]; simpl; split.
  - discriminate.
  - intros (? & ? & ? & H). discriminate H.
  - intros _. now exists seg, seg2, more.
  - reflexivity.
Qed.

Lemma isMethodExample_Split (name seg1 seg2 : string) (more : list string) :
  Split name "_"%char = seg1 :: seg2 :: more ->
  isMethodExample Lower name =
    Some (negb (unicode.IsLower Lower (fst (utf8.DecodeRuneInString seg2)))).
Proof. unfold isMethodExample. now intros ->. Qed.

(** [processDecl] does what the branch named by [classify] does. *)
Lemma processDecl_classify (d : Declaration) (funcList : funcs) :
  processDecl Lower d funcList =
    (k <- classify Lower (decl_name d) ;; Some (record k (entryOf d) funcList)).
Proof.
  unfold processDecl, classify, isTestOrBenchmark, entryOf.
  destruct (isTest Lower (decl_name d) "Test") as [[|]|]; simpl; try reflexivity.
  destruct (isTest Lower (decl_name d) "Benchmark") as [[|]|]; simpl;
    try reflexivity.
  destruct (isExample Lower (decl_name d)) as [[|]|]; simpl; try reflexivity.
  destruct (isSubExample (decl_name d)); simpl; try reflexivity.
  destruct (isMethodExample Lower (decl_name d)) as [[|]|]; simpl;
    try reflexivity.
  - destruct (Split (TrimPrefix (decl_name d) "Example") "_"%char !! 0%nat);
      simpl; try reflexivity.
    destruct (Split (decl_name d) "_"%char !! 1%nat); reflexivity.
  - destruct (Split (TrimPrefix (decl_name d) "Example") "_"%char !! 0%nat);
      reflexivity.
Qed.

(** The three branches for an example name. *)
Lemma classify_function_example (name rest : string) :
  name = "Example" +:+ rest ->
  isExample Lower name = Some true ->
  isSubExample name = false ->
  classify Lower name = Some (FunctionExample rest).
Proof.
  intros Hn He Hs. unfold classify.
  destruct (isTest_Example rest) as [Ht Hb]. rewrite <- Hn in Ht, Hb.
  rewrite Ht, Hb, He, Hs. cbn [bind negb].
  now rewrite Hn, TrimPrefix_app.
Qed.

Lemma classify_sub_or_method (name rest seg seg2 : string) (more : list string) :
  name = "Example" +:+ rest ->
  isExample Lower name = Some true ->
  Split rest "_"%char = seg :: seg2 :: more ->
  classify Lower name =
    Some (if unicode.IsLower Lower (fst (utf8.DecodeRuneInString seg2))
          then SubExample seg
          else MethodExample (seg +:+ "." +:+ seg2)).
Proof.
  intros Hname He Hs.
  assert (Hn : Split name "_"%char = ("Example" +:+ seg) :: seg2 :: more).
  { rewrite Hname. now apply Split_Example. }
  assert (Hk : TrimPrefix name "Example" = rest).
  { rewrite Hname. apply TrimPrefix_app. }
  assert (Hsub : isSubExample name = true).
  { apply isSubExample_Split. eauto. }
  destruct (isTest_Example rest) as [Ht Hb]. rewrite <- Hname in Ht, Hb.
  unfold classify.
  rewrite Ht, Hb, He, Hsub, (isMethodExample_Split _ _ _ _ Hn), Hk, Hs, Hn.
  cbn [bind negb lookup list_lookup].
  now destruct (unicode.IsLower Lower (fst (utf8.DecodeRuneInString seg2))).
Qed.

Lemma classify_total (name : string) : exists k, classify Lower name = Some k.
Proof.
  unfold classify.
  destruct (isTest_total name "Test") as [[|] ->]; simpl; [eauto |].
  destruct (isTest_total name "Benchmark") as [[|] ->]; simpl; [eauto |].
  unfold isExample.
  destruct (isTest_total name "Example") as [[|] ->]; simpl; [|eauto].
  destruct (isSubExample name) eqn:Hs; [|eauto].
  apply isSubExample_Split in Hs as (seg1 & seg2 & more & Hs).
  rewrite (isMethodExample_Split _ _ _ _ Hs). simpl.
  destruct (Split_lookup_0 (TrimPrefix name "Example") "_"%char) as [k0 ->].
  simpl. rewrite Hs. simpl.
  destruct (negb _); eauto.
Qed.

Lemma processDecl_total (d : Declaration) (funcList : funcs) :
  exists funcList', processDecl Lower d funcList = Some funcList'.
Proof.
  rewrite processDecl_classify.
  destruct (classify_total (decl_name d)) as [k ->]. simpl. eauto.
Qed.

End ClassifierProperties.

(** ** Segments and underscores *)

(** [Split] cuts at every separator: joining the segments with the separator
    gives the string back. *)
Lemma Split_join (s : string) (sep : ascii) :
  String.concat (String sep EmptyString) (Split s sep) = s.
Proof.
  induction s as [|c s IH]; [reflexivity |].
  simpl Split. destruct (Ascii.eqb c sep) eqn:Hc.
  - apply Ascii.eqb_eq in Hc as ->.
    destruct (Split_cons s sep) as (seg & segs & Hs). rewrite Hs in *.
    simpl. simpl in IH. now rewrite IH.
  - destruct (Split_cons s sep) as (seg & segs & Hs). rewrite Hs in *.
    destruct segs as [|seg' segs]; simpl in *; now rewrite <- IH.
Qed.

Lemma isSubExample_underscore (name : string) :
  isSubExample name = true <-> exists a b, name = a +:+ "_" +:+ b.
Proof.
  unfold isSubExample. induction name as [|c s IH].
  - simpl. split; [discriminate |]. intros ([|? ?] & b & H); discriminate H.
  - simpl Split. destruct (Ascii.eqb c "_") eqn:Hc.
    + apply Ascii.eqb_eq in Hc as ->.
      destruct (Split_cons s "_"%char) as (seg & segs & ->). simpl.
      split; [intros _ | reflexivity]. now exists EmptyString, s.
    + destruct (Split_cons s "_"%char) as (seg & segs & Hs).
      rewrite Hs in *. etransitivity; [exact IH |]. clear IH.
      split.
      * intros (a & b & ->). now exists (String c a), b.
      * intros ([|c' a] & b & H).
        -- injection H as -> _. discriminate Hc.
        -- rewrite string_app_cons in H. injection H as _ ->. now exists a, b.
Qed.

Lemma latin1_upper_not_lower (r : Z) :
  unicode.latin1_upper r = true -> unicode.latin1_lower r = false.
Proof.
  unfold unicode.latin1_upper, unicode.latin1_lower. intros H.
  repeat match goal with
         | |- context [?a <=? ?b] => destruct (Z.leb_spec a b)
         | |- context [?a =? ?b] => destruct (Z.eqb_spec a b)
         | H : context [?a <=? ?b] |- _ => destruct (Z.leb_spec a b)
         end; simpl in *; try reflexivity; try discriminate; lia.
Qed.

(** ** The claims about the classifier *)

Section ClassifierClaims.

Variables Lower Upper : Z -> bool.

Lemma IsUpper_not_IsLower (r : Z) :
  (forall c, Upper c = true -> Lower c = false) ->
  unicode.IsUpper Upper r = true -> unicode.IsLower Lower r = false.
Proof.
  intros Hdisj. unfold unicode.IsUpper, unicode.IsLower.
  destruct (r <=? unicode.MaxLatin1); [apply latin1_upper_not_lower | apply Hdisj].
Qed.

(** C1: [isTest name prefix] always returns; it returns [true] exactly when
    [name] starts with [prefix] and either nothing follows the prefix or the
    rune decoded from what follows is not a lower-case letter; and when the
    prefix is followed by the UTF-8 encoding of a code point [r], of one to
    four bytes, the answer is decided by [r] itself. *)
Theorem isTest_prefixed_and_capitalized (name prefix : string) :
  (exists b, isTest Lower name prefix = Some b) /\
  (isTest Lower name prefix = Some true <->
   exists rest, name = prefix +:+ rest /\
     (rest = EmptyString \/
      unicode.IsLower Lower (fst (utf8.DecodeRuneInString rest)) = false)) /\
  (forall (r : Z) (tail : string),
     utf8.validRune r = true ->
     isTest Lower (prefix +:+ utf8.EncodeRune r +:+ tail) prefix =
       Some (negb (unicode.IsLower Lower r))).
Proof.
  split; [apply isTest_total |]. split; [apply isTest_true_iff |].
  intros r tail Hv. unfold isTest.
  rewrite HasPrefix_app, slice_from_app. cbn [negb bind].
  destruct (Nat.eqb_spec (len (prefix +:+ utf8.EncodeRune r +:+ tail)) (len prefix))
    as [Hl|_].
  - exfalso. rewrite !len_app in Hl.
    pose proof (EncodeRune_nonempty r) as Hne.
    destruct (utf8.EncodeRune r); [congruence | simpl in Hl; lia].
  - destruct (DecodeRuneInString_EncodeRune r tail Hv) as (size & -> & _).
    reflexivity.
Qed.

(** C6: an example name without an underscore is a function example whose
    key is the name without its leading ["Example"]; ["Example"] itself has
    the empty key and ["ExampleFoo"] the key ["Foo"]. *)
Theorem classify_FunctionExample (name : string) :
  (isExample Lower name = Some true ->
   (forall a b, name <> a +:+ "_" +:+ b) ->
   exists suffix,
     name = "Example" +:+ suffix /\
     TrimPrefix name "Example" = suffix /\
     classify Lower name = Some (FunctionExample suffix) /\
     forall (pos : string) (funcList : funcs),
       processDecl Lower (mkDecl name pos) funcList =
         Some (appendExample suffix (entryOf (mkDecl name pos)) funcList)) /\
  classify Lower "Example" = Some (FunctionExample "") /\
  classify Lower "ExampleFoo" = Some (FunctionExample "Foo").
Proof.
  split; [| split; reflexivity].
  intros He Hno. destruct (isExample_inv Lower name He) as [suffix Hn].
  assert (Hs : isSubExample name = false).
  { destruct (isSubExample name) eqn:Hs; [|reflexivity].
    apply isSubExample_underscore in Hs as (a & b & Hab).
    now destruct (Hno a b). }
  pose proof (classify_function_example Lower name suffix Hn He Hs) as Hc.
  exists suffix. split; [exact Hn |]. split; [rewrite Hn; apply TrimPrefix_app |].
  split; [exact Hc |]. intros pos funcList.
  rewrite processDecl_classify. cbn [decl_name]. now rewrite Hc.
Qed.

(** The second segment decides between the two kinds of sub-example. *)
Lemma classify_second_segment (name seg1 seg2 : string) (more : list string) :
  isExample Lower name = Some true ->
  Split name "_"%char = seg1 :: seg2 :: more ->
  classify Lower name =
    Some (if unicode.IsLower Lower (fst (utf8.DecodeRuneInString seg2))
          then SubExample (TrimPrefix seg1 "Example")
          else MethodExample (TrimPrefix seg1 "Example" +:+ "." +:+ seg2)).
Proof.
  intros He Hs.
  destruct (isExample_inv Lower name He) as [rest Hn].
  destruct (Split_cons rest "_"%char) as (seg & segs & Hr).
  pose proof (Split_Example _ _ _ Hr) as Hs'. rewrite <- Hn, Hs in Hs'.
  injection Hs' as -> <-.
  rewrite TrimPrefix_app.
  exact (classify_sub_or_method Lower name rest seg seg2 more Hn He Hr).
Qed.

(** C2, as the program has it: when the second segment of an example name
    begins with a lower-case letter the name is a sub-example, whose key is
    the first segment without its leading ["Example"]; when it begins with
    anything else (an upper-case letter, a digit, nothing at all) the name is
    a method example. *)
Theorem classify_SubExample (name seg1 seg2 : string) (more : list string) :
  isExample Lower name = Some true ->
  Split name "_"%char = seg1 :: seg2 :: more ->
  let lower := unicode.IsLower Lower (fst (utf8.DecodeRuneInString seg2)) in
  let key := TrimPrefix seg1 "Example" in
  classify Lower name =
    Some (if lower then SubExample key else MethodExample (key +:+ "." +:+ seg2)) /\
  (lower = true ->
   forall (pos : string) (funcList : funcs),
     processDecl Lower (mkDecl name pos) funcList =
       Some (appendExample key (entryOf (mkDecl name pos)) funcList)).
Proof.
  intros He Hs lower key.
  pose proof (classify_second_segment name seg1 seg2 more He Hs) as Hc.
  fold lower key in Hc. split; [exact Hc |].
  intros Hl pos funcList. rewrite processDecl_classify. cbn [decl_name].
  rewrite Hc, Hl. reflexivity.
Qed.

(** C5: when the second segment of an example name begins with an
    upper-case letter the name is a method example with key
    [TypePart.MethodPart]: the first segment without its leading ["Example"],
    a dot, the second segment as it is.  ["ExampleFoo_Bar"] has the key
    ["Foo.Bar"]. *)
Theorem classify_MethodExample (name seg1 seg2 : string) (more : list string) :
  (forall c, Upper c = true -> Lower c = false) ->
  (isExample Lower name = Some true ->
   Split name "_"%char = seg1 :: seg2 :: more ->
   unicode.IsUpper Upper (fst (utf8.DecodeRuneInString seg2)) = true ->
   let key := TrimPrefix seg1 "Example" +:+ "." +:+ seg2 in
   classify Lower name = Some (MethodExample key) /\
   forall (pos : string) (funcList : funcs),
     processDecl Lower (mkDecl name pos) funcList =
       Some (appendExample key (entryOf (mkDecl name pos)) funcList)) /\
  classify Lower "ExampleFoo_Bar" = Some (MethodExample "Foo.Bar").
Proof.
  intros Hdisj. split; [| reflexivity].
  intros He Hs Hu key.
  apply (IsUpper_not_IsLower _ Hdisj) in Hu.
  pose proof (classify_second_segment name seg1 seg2 more He Hs) as Hc.
  rewrite Hu in Hc. fold key in Hc. split; [exact Hc |].
  intros pos funcList. rewrite processDecl_classify. cbn [decl_name].
  now rewrite Hc.
Qed.

End ClassifierClaims.

(** ** One package: the map from owners to examples *)

Section GroupingProperties.

Variable Lower : Z -> bool.

Lemma lookup_appendExample (key entry : string) (m : funcs) (key' : string) :
  appendExample key entry m !! key' =
    if decide (key = key') then Some (at_key m key ++ [entry]) else m !! key'.
Proof. unfold appendExample. apply lookup_insert. Qed.

Lemma processFile_app (ds1 ds2 : list Declaration) (m : funcs) :
  processFile Lower (ds1 ++ ds2) m =
    (m' <- processFile Lower ds1 m ;; processFile Lower ds2 m').
Proof.
  revert m. induction ds1 as [|d ds1 IH]; intros m; [reflexivity |].
  simpl. destruct (processDecl Lower d m) as [m1|]; simpl; [apply IH | reflexivity].
Qed.

Lemma processFile_total (ds : list Declaration) (m : funcs) :
  exists m', processFile Lower ds m = Some m'.
Proof.
  revert m. induction ds as [|d ds IH]; intros m; simpl; [eauto |].
  destruct (processDecl_total Lower d m) as [m1 ->]. simpl. apply IH.
Qed.

Lemma processFiles_concat (fs : list (list Declaration)) (m : funcs) :
  processFiles Lower fs m = processFile Lower (concat fs) m.
Proof.
  revert m. induction fs as [|f fs IH]; intros m; [reflexivity |].
  simpl. rewrite processFile_app.
  destruct (processFile Lower f m) as [m1|]; simpl; [apply IH | reflexivity].
Qed.

Lemma processFiles_total (fs : list (list Declaration)) (m : funcs) :
  exists m', processFiles Lower fs m = Some m'.
Proof. rewrite processFiles_concat. apply processFile_total. Qed.

Lemma classify_example_kind (name : string) (k : Kind) :
  classify Lower name = Some k -> isExampleKind k = true ->
  isExample Lower name = Some true.
Proof.
  unfold classify.
  destruct (isTest Lower name "Test") as [[|]|]; simpl;
    [intros [= <-]; discriminate | | discriminate].
  destruct (isTest Lower name "Benchmark") as [[|]|]; simpl;
    [intros [= <-]; discriminate | | discriminate].
  destruct (isExample Lower name) as [[|]|]; simpl;
    [reflexivity | intros [= <-]; discriminate | discriminate].
Qed.

Lemma classify_plain_key (name key : string) :
  classify Lower name = Some (PlainDeclaration key) -> key = name.
Proof.
  unfold classify.
  destruct (isTest Lower name "Test") as [[|]|]; simpl; try discriminate.
  destruct (isTest Lower name "Benchmark") as [[|]|]; simpl; try discriminate.
  destruct (isExample Lower name) as [[|]|]; simpl; try discriminate.
  - destruct (isSubExample name); [|discriminate].
    destruct (isMethodExample Lower name) as [[|]|]; simpl; try discriminate;
      destruct (Split (TrimPrefix name "Example") "_"%char !! 0%nat); simpl;
      try discriminate.
    destruct (Split name "_"%char !! 1%nat); discriminate.
  - now intros [= <-].
Qed.

Lemma comesFrom_empty (ds : list Declaration) : comesFrom Lower ds ∅.
Proof. intros key l H. rewrite lookup_empty in H. discriminate. Qed.

Lemma comesFrom_mono (ds ds' : list Declaration) (m : funcs) :
  (forall d, d ∈ ds -> d ∈ ds') -> comesFrom Lower ds m -> comesFrom Lower ds' m.
Proof.
  intros Hsub Hm key l Hl. destruct (Hm key l Hl) as [(d & k & Hd & Hk) He].
  split; [exists d, k; split; [auto | exact Hk] |].
  intros e Hin. destruct (He e Hin) as (d' & k' & Hd' & Hk').
  exists d', k'. split; [auto | exact Hk'].
Qed.

Lemma comesFrom_step (ds : list Declaration) (d : Declaration) (m m' : funcs) :
  comesFrom Lower ds m -> processDecl Lower d m = Some m' ->
  comesFrom Lower (ds ++ [d]) m'.
Proof.
  intros Hm Hstep. rewrite processDecl_classify in Hstep.
  destruct (classify Lower (decl_name d)) as [k|] eqn:Hk; [|discriminate].
  simpl in Hstep. injection Hstep as <-.
  assert (Hold : comesFrom Lower (ds ++ [d]) m).
  { apply (comesFrom_mono ds); [|exact Hm]. intros x Hx. set_solver. }
  assert (Hd : d ∈ ds ++ [d]) by set_solver.
  assert (Happ : forall key, ownerKey k = Some key -> isExampleKind k = true ->
            comesFrom Lower (ds ++ [d]) (appendExample key (entryOf d) m)).
  { intros key Hkey Hex key' l Hl. rewrite lookup_appendExample in Hl.
    destruct (decide (key = key')) as [<-|Hne]; [|exact (Hold key' l Hl)].
    injection Hl as <-. split; [now exists d, k |].
    intros e He. apply elem_of_app in He as [He|He].
    - unfold at_key in He. destruct (m !! key) as [l0|] eqn:Hl0.
      + exact (proj2 (Hold key l0 Hl0) e He).
      + simpl in He. inversion He.
    - apply list_elem_of_singleton in He as ->. now exists d, k. }
  destruct k as [| |key|key|key|key]; simpl record;
    try exact Hold; try (apply Happ; reflexivity).
  intros key' l Hl. rewrite lookup_insert in Hl.
  destruct (decide (key = key')) as [<-|Hne]; [|exact (Hold key' l Hl)].
  injection Hl as <-. split; [now exists d, (PlainDeclaration key) |].
  intros e He. inversion He.
Qed.

Lemma comesFrom_processFile (ds0 ds : list Declaration) (m m' : funcs) :
  comesFrom Lower ds0 m -> processFile Lower ds m = Some m' ->
  comesFrom Lower (ds0 ++ ds) m'.
Proof.
  revert ds0 m. induction ds as [|d ds IH]; intros ds0 m Hm Hrun.
  - injection Hrun as <-. now rewrite app_nil_r.
  - simpl in Hrun. apply bind_Some in Hrun as (m1 & Hd & Hrun).
    replace (ds0 ++ d :: ds) with ((ds0 ++ [d]) ++ ds) by now rewrite <- app_assoc.
    apply (IH _ m1); [|exact Hrun]. exact (comesFrom_step ds0 d m m1 Hm Hd).
Qed.

(** A name that is a test or a benchmark leaves the map as it is. *)
Lemma processDecl_test (d : Declaration) (m : funcs) :
  isTest Lower (decl_name d) "Test" = Some true \/
  isTest Lower (decl_name d) "Benchmark" = Some true ->
  processDecl Lower d m = Some m.
Proof.
  intros H. unfold processDecl, isTestOrBenchmark.
  destruct (isTest_total Lower (decl_name d) "Test") as [[|] Ht]; rewrite Ht.
  - reflexivity.
  - destruct H as [H|H]; [congruence |]. simpl. now rewrite H.
Qed.

(** A plain declaration sets its key to the empty list, whatever was there. *)
Lemma processDecl_plain (d : Declaration) (m : funcs) :
  classify Lower (decl_name d) = Some (PlainDeclaration (decl_name d)) ->
  processDecl Lower d m = Some (<[decl_name d := []]> m).
Proof. intros Hk. rewrite processDecl_classify, Hk. reflexivity. Qed.

End GroupingProperties.

Section GroupingClaims.

Variable Lower : Z -> bool.

(** C3, on the program: a plain declaration that comes after an example
    for it replaces the list of examples by the empty list, so the example is
    lost; only when the plain declaration comes first does the key end with
    the list holding the example. *)
Theorem plain_declaration_resets_examples (pos1 pos2 : string) :
  processFile Lower [mkDecl "ExampleFoo" pos1; mkDecl "Foo" pos2] ∅ =
    Some {["Foo" := []]} /\
  processFile Lower [mkDecl "Foo" pos2; mkDecl "ExampleFoo" pos1] ∅ =
    Some {["Foo" := [entryOf (mkDecl "ExampleFoo" pos1)]]} /\
  forall (e : string) (l : list string) (funcList : funcs),
    funcList !! "Foo" = Some (e :: l) ->
    exists funcList',
      processDecl Lower (mkDecl "Foo" pos2) funcList = Some funcList' /\
      funcList' !! "Foo" = Some [].
Proof.
  split; [vm_compute; reflexivity |]. split; [vm_compute; reflexivity |].
  intros e l funcList _. exists (<["Foo" := []]> funcList).
  split; [| apply lookup_insert_eq].
  now apply (processDecl_plain Lower (mkDecl "Foo" pos2)).
Qed.

(** C4, as the program has it: a declaration whose name [isTest] accepts
    with prefix ["Test"] or ["Benchmark"] has no key, leaves every map as it
    is, and can be deleted from the declarations of a package without
    changing the result; every key of a map is the key of another
    declaration and every entry is the entry of an example declaration with
    another name.  (Its name is a key only when such an example names it as
    its owner.)  ["TestFoo"] is a test, ["Testify"] is a plain declaration
    with key ["Testify"]. *)
Theorem tests_and_benchmarks_contribute_nothing (name : string) :
  (isTest Lower name "Test" = Some true \/
   isTest Lower name "Benchmark" = Some true ->
   (exists k, classify Lower name = Some k /\ ownerKey k = None) /\
   (forall (pos : string) (funcList : funcs),
      processDecl Lower (mkDecl name pos) funcList = Some funcList) /\
   (forall (pos : string) (ds1 ds2 : list Declaration) (funcList : funcs),
      processFile Lower (ds1 ++ mkDecl name pos :: ds2) funcList =
      processFile Lower (ds1 ++ ds2) funcList) /\
   (forall (fs : list (list Declaration)) (funcList : funcs) (key : string)
           (l : list string),
      processFiles Lower fs ∅ = Some funcList ->
      funcList !! key = Some l ->
      (exists d k, d ∈ concat fs /\ decl_name d <> name /\
         classify Lower (decl_name d) = Some k /\ ownerKey k = Some key) /\
      (forall e, e ∈ l ->
         exists d, d ∈ concat fs /\ decl_name d <> name /\
           isExample Lower (decl_name d) = Some true /\ e = entryOf d) /\
      (key = name ->
       exists d k, d ∈ concat fs /\ classify Lower (decl_name d) = Some k /\
         isExampleKind k = true /\ ownerKey k = Some name))) /\
  classify Lower "TestFoo" = Some TestDecl /\
  classify Lower "Testify" = Some (PlainDeclaration "Testify") /\
  (forall (pos : string) (funcList : funcs),
     processDecl Lower (mkDecl "Testify" pos) funcList =
       Some (<["Testify" := []]> funcList)).
Proof.
  split.
  { intros H.
    assert (Hk : exists k, classify Lower name = Some k /\ ownerKey k = None).
    { unfold classify.
      destruct (isTest_total Lower name "Test") as [[|] Ht]; rewrite Ht; simpl.
      - now exists TestDecl.
      - destruct H as [H|H]; [congruence |]. rewrite H. simpl.
        now exists BenchmarkDecl. }
    split; [exact Hk |]. split; [| split].
    - intros pos funcList. now apply processDecl_test.
    - intros pos ds1 ds2 funcList. rewrite !processFile_app.
      destruct (processFile Lower ds1 funcList) as [m1|]; simpl; [|reflexivity].
      now rewrite processDecl_test.
    - intros fs funcList key l Hrun Hl. rewrite processFiles_concat in Hrun.
      pose proof (comesFrom_processFile Lower [] (concat fs) ∅ funcList
                    (comesFrom_empty Lower []) Hrun) as Hfrom.
      destruct Hk as (k0 & Hk0 & Hnone).
      assert (Hother : forall d k key', classify Lower (decl_name d) = Some k ->
                ownerKey k = Some key' -> decl_name d <> name).
      { intros d k key' Hc Ho Heq. rewrite Heq, Hk0 in Hc.
        injection Hc as <-. congruence. }
      destruct (Hfrom key l Hl) as [(d & k & Hd & Hc & Ho) He].
      split; [| split].
      + exists d, k. split; [exact Hd |].
        split; [exact (Hother d k key Hc Ho) | split; assumption].
      + intros e Hin. destruct (He e Hin) as (d' & k' & Hd' & Hc' & Hex & Ho' & ->).
        exists d'. split; [exact Hd' |].
        split; [exact (Hother d' k' key Hc' Ho') |].
        split; [exact (classify_example_kind Lower _ _ Hc' Hex) | reflexivity].
      + intros ->. exists d, k. split; [exact Hd |]. split; [exact Hc |].
        split; [| exact Ho].
        destruct k as [| |key|key|key|key]; try reflexivity; try discriminate.
        exfalso. injection Ho as ->. apply (Hother d _ _ Hc eq_refl).
        symmetry. exact (classify_plain_key Lower _ _ Hc). }
  split; [reflexivity |]. split; [reflexivity |].
  intros pos funcList.
  now apply (processDecl_plain Lower (mkDecl "Testify" pos)).
Qed.

(** C9, as the program has it: every entry of a map is the position of an
    example declaration, a colon, one tab character and the name of that
    declaration. *)
Theorem entry_is_position_colon_tab_name
  (fs : list (list Declaration)) (funcList : funcs) (key : string)
  (l : list string) (e : string) :
  processFiles Lower fs ∅ = Some funcList ->
  funcList !! key = Some l ->
  e ∈ l ->
  exists d, d ∈ concat fs /\ isExample Lower (decl_name d) = Some true /\
    e = decl_pos d +:+ ":" +:+ tab +:+ decl_name d.
Proof.
  intros Hrun Hl He. rewrite processFiles_concat in Hrun.
  pose proof (comesFrom_processFile Lower [] (concat fs) ∅ funcList
                (comesFrom_empty Lower []) Hrun) as Hfrom.
  destruct (proj2 (Hfrom key l Hl) e He) as (d & k & Hd & Hk & Hex & _ & ->).
  exists d. split; [exact Hd |].
  split; [exact (classify_example_kind Lower _ _ Hk Hex) |].
  unfold entryOf. now rewrite string_app_assoc.
Qed.

End GroupingClaims.

(** ** Packages: the union of two maps and the name of a group *)

Lemma unionInto_lookup (kvs : list (string * list string)) (existing : funcs)
  (key : string) :
  NoDup kvs.*1 ->
  unionInto existing kvs !! key =
    match (list_to_map kvs : funcs) !! key with
    | Some v => Some (at_key existing key ++ v)
    | None => existing !! key
    end.
Proof.
  revert existing. induction kvs as [|[k v] kvs IH]; intros existing Hnd.
  - simpl. now rewrite lookup_empty.
  - rewrite fmap_cons in Hnd. apply NoDup_cons in Hnd as [Hk Hnd].
    change (unionInto existing ((k, v) :: kvs))
      with (unionInto (unionStep existing (k, v)) kvs).
    rewrite (IH _ Hnd). simpl list_to_map. unfold unionStep, at_key.
    cbn [fst snd] in *. destruct (decide (k = key)) as [<-|Hne].
    + rewrite (not_elem_of_list_to_map_1 _ _ Hk), !lookup_insert_eq.
      reflexivity.
    + rewrite !lookup_insert_ne by exact Hne. reflexivity.
Qed.

Lemma unionInto_map_to_list (existing new : funcs) (key : string) :
  unionInto existing (map_to_list new) !! key =
    match new !! key with
    | Some v => Some (at_key existing key ++ v)
    | None => existing !! key
    end.
Proof.
  rewrite unionInto_lookup by apply NoDup_fst_map_to_list.
  now rewrite list_to_map_to_list.
Qed.

(** The order in which [range] visits the map does not matter. *)
Lemma unionInto_any_order (kvs : list (string * list string))
  (existing new : funcs) :
  kvs ≡ₚ map_to_list new ->
  unionInto existing kvs = unionInto existing (map_to_list new).
Proof.
  intros Hp. apply map_eq. intros key.
  assert (Hnd : NoDup kvs.*1).
  { rewrite Hp. apply NoDup_fst_map_to_list. }
  rewrite unionInto_lookup by exact Hnd. rewrite unionInto_map_to_list.
  assert (Hm : (list_to_map kvs : funcs) = new).
  { transitivity (list_to_map (map_to_list new) : funcs);
      [now apply list_to_map_proper | apply list_to_map_to_list]. }
  now rewrite Hm.
Qed.

Lemma dom_aggregate (pkgName : string) (funcList : funcs) (pkgList : pkg) :
  dom (aggregate pkgName funcList pkgList) = {[pkgName]} ∪ dom pkgList.
Proof. unfold aggregate. destruct (negb _); apply dom_insert_L. Qed.

Lemma groupName_test (X : string) : groupName (X +:+ "_test") = X.
Proof. unfold groupName. rewrite HasSuffix_app. apply TrimSuffix_app. Qed.

Lemma groupName_other (raw : string) :
  HasSuffix raw "_test" = false -> groupName raw = raw.
Proof. unfold groupName. now intros ->. Qed.

Lemma groupName_suffix (raw : string) :
  HasSuffix (groupName raw) "_test" = HasSuffix raw "_test_test".
Proof.
  apply eq_true_iff_eq. rewrite !HasSuffix_spec.
  destruct (HasSuffix raw "_test") eqn:Hs.
  - apply HasSuffix_spec in Hs as [X ->]. rewrite groupName_test. split.
    + intros [Y ->]. exists Y. now rewrite string_app_assoc.
    + intros [Y H]. exists Y.
      apply (string_app_inv_tail "_test"). now rewrite string_app_assoc.
  - rewrite (groupName_other raw Hs). split.
    + intros H. apply HasSuffix_spec in H. congruence.
    + intros [Y H]. assert (Ht : HasSuffix raw "_test" = true).
      { apply HasSuffix_spec. exists (Y +:+ "_test").
        now rewrite string_app_assoc. }
      congruence.
Qed.

Section WalkProperties.

Variable Lower : Z -> bool.
Variables gopath ps : string.

Lemma processPackage_total (path : string) (p : Package) (pkgList : pkg) :
  exists pkgList', processPackage Lower gopath ps path p pkgList = Some pkgList'.
Proof.
  unfold processPackage. destruct (PackageExports p); simpl; [|eauto].
  destruct (processFiles_total Lower (Files p) ∅) as [m ->]. simpl. eauto.
Qed.

Lemma processPackage_dom (path : string) (p : Package) (pkgList pkgList' : pkg) :
  processPackage Lower gopath ps path p pkgList = Some pkgList' ->
  dom pkgList' = {[pkgKey gopath ps (groupName (Name p)) path]} ∪ dom pkgList.
Proof.
  unfold processPackage. intros H. apply bind_Some in H as (m & _ & H).
  injection H as <-. apply dom_aggregate.
Qed.

Lemma processDir_total (path : string) (pkgs : list Package) (pkgList : pkg) :
  exists pkgList', processDir Lower gopath ps path pkgs pkgList = Some pkgList'.
Proof.
  revert pkgList. induction pkgs as [|p pkgs IH]; intros pkgList; simpl; [eauto |].
  destruct (processPackage_total path p pkgList) as [c ->]. simpl. apply IH.
Qed.

Lemma processDir_dom (path : string) (pkgs : list Package) (pkgList pkgList' : pkg)
  (key : string) :
  processDir Lower gopath ps path pkgs pkgList = Some pkgList' ->
  key ∈ dom pkgList' ->
  key ∈ dom pkgList \/
  exists p, p ∈ pkgs /\ key = pkgKey gopath ps (groupName (Name p)) path.
Proof.
  revert pkgList. induction pkgs as [|p pkgs IH]; intros pkgList H Hk.
  - injection H as <-. now left.
  - simpl in H. apply bind_Some in H as (c & Hp & H).
    destruct (IH c H Hk) as [Hc | (q & Hq & ->)].
    + rewrite (processPackage_dom _ _ _ _ Hp) in Hc.
      apply elem_of_union in Hc as [Hc|Hc]; [|now left].
      apply elem_of_singleton in Hc as ->. right. exists p.
      split; [apply list_elem_of_here | reflexivity].
    + right. exists q. split; [now apply list_elem_of_further | reflexivity].
Qed.

Lemma walk_total (dirs : list (string * list Package)) (pkgList : pkg) :
  exists pkgList', walk Lower gopath ps dirs pkgList = Some pkgList'.
Proof.
  revert pkgList. induction dirs as [|[path pkgs] dirs IH]; intros pkgList;
    simpl; [eauto |].
  destruct (processDir_total path pkgs pkgList) as [c ->]. simpl. apply IH.
Qed.

Lemma walk_dom (dirs : list (string * list Package)) (pkgList pkgList' : pkg)
  (key : string) :
  walk Lower gopath ps dirs pkgList = Some pkgList' ->
  key ∈ dom pkgList' ->
  key ∈ dom pkgList \/
  exists path pkgs p, (path, pkgs) ∈ dirs /\ p ∈ pkgs /\
    key = pkgKey gopath ps (groupName (Name p)) path.
Proof.
  revert pkgList. induction dirs as [|[path pkgs] dirs IH]; intros pkgList H Hk.
  - injection H as <-. now left.
  - simpl in H. apply bind_Some in H as (c & Hd & H).
    destruct (IH c H Hk) as [Hc | (path' & pkgs' & q & Hin & Hq & ->)].
    + destruct (processDir_dom _ _ _ _ _ Hd Hc) as [Hc'|(q & Hq & ->)];
        [now left |].
      right. exists path, pkgs, q.
      split; [apply list_elem_of_here | split; [exact Hq | reflexivity]].
    + right. exists path', pkgs', q.
      split; [now apply list_elem_of_further | split; [exact Hq | reflexivity]].
Qed.

End WalkProperties.

Section AggregatorClaims.

Variable Lower : Z -> bool.

(** Merging a map into a group that holds the same map. *)
Lemma aggregate_self (M : funcs) (pkgName : string) (pkgList : pkg) :
  exists M',
    aggregate pkgName M (<[pkgName := M]> pkgList) !! pkgName = Some M' /\
    dom M' = dom M /\
    (forall key, M' !! key = (fun l => l ++ l) <$> M !! key) /\
    (forall key, length (at_key M' key) = (2 * length (at_key M key))%nat) /\
    (forall kvs, kvs ≡ₚ map_to_list M -> M' = unionInto M kvs \/ M = ∅).
Proof.
  assert (Hlook : forall key,
            unionInto M (map_to_list M) !! key = (fun l => l ++ l) <$> M !! key).
  { intros key. rewrite unionInto_map_to_list. unfold at_key.
    now destruct (M !! key). }
  assert (Hfinal : exists M',
            aggregate pkgName M (<[pkgName := M]> pkgList) !! pkgName = Some M' /\
            (M' = unionInto M (map_to_list M) \/ M' = M /\ M = ∅)).
  { unfold aggregate, pkg_at. rewrite lookup_insert_eq. simpl.
    destruct (Nat.eqb_spec (size M) 0) as [Hz|Hnz]; simpl.
    - exists M. rewrite lookup_insert_eq. split; [reflexivity |].
      right. split; [reflexivity |]. now apply map_size_empty_iff.
    - eexists. rewrite lookup_insert_eq. split; [reflexivity |]. now left. }
  destruct Hfinal as (M' & HM' & Hcase). exists M'. split; [exact HM' |].
  assert (Hl : forall key, M' !! key = (fun l => l ++ l) <$> M !! key).
  { destruct Hcase as [-> | [-> ->]]; [exact Hlook |].
    intros key. now rewrite lookup_empty. }
  split; [| split; [exact Hl | split]].
  - apply set_eq. intros key. rewrite !elem_of_dom, Hl.
    destruct (M !! key); simpl; split; intros [x Hx]; eauto; discriminate.
  - intros key. unfold at_key. rewrite Hl. destruct (M !! key); simpl.
    + rewrite length_app. lia.
    + reflexivity.
  - intros kvs Hp. destruct Hcase as [-> | [_ ->]]; [left | now right].
    symmetry. now apply unionInto_any_order.
Qed.

(** What a package adds does not depend on the collection. *)
Lemma processPackage_aggregate (gopath ps path : string) (p : Package) :
  exists F, forall pkgList,
    processPackage Lower gopath ps path p pkgList =
      Some (aggregate (pkgKey gopath ps (groupName (Name p)) path) F pkgList).
Proof.
  unfold processPackage. destruct (PackageExports p).
  - destruct (processFiles_total Lower (Files p) ∅) as [F ->]. now exists F.
  - now exists ∅.
Qed.

(** C7: when the group of a package already holds the map [M] and [M] is
    merged into it once more, the group has the keys of [M] and at every key
    the list of [M] twice, so twice its length, in whatever order the loop
    visits [M]; so it is for a package walked after a package of the same
    group with the same files (the package again, or its test variant) when
    the group was new. *)
Theorem aggregate_with_itself (M : funcs) (pkgName : string) (pkgList : pkg) :
  (exists M',
     aggregate pkgName M (<[pkgName := M]> pkgList) !! pkgName = Some M' /\
     dom M' = dom M /\
     (forall key, M' !! key = (fun l => l ++ l) <$> M !! key) /\
     (forall key, length (at_key M' key) = (2 * length (at_key M key))%nat) /\
     (forall kvs, kvs ≡ₚ map_to_list M -> M' = unionInto M kvs \/ M = ∅)) /\
  (forall (gopath ps path : string) (p1 p2 : Package),
     groupName (Name p1) = groupName (Name p2) ->
     PackageExports p1 = PackageExports p2 ->
     Files p1 = Files p2 ->
     pkgList !! pkgKey gopath ps (groupName (Name p1)) path = None ->
     exists (F F' : funcs) (pkgList1 pkgList2 : pkg),
       processPackage Lower gopath ps path p1 pkgList = Some pkgList1 /\
       processPackage Lower gopath ps path p2 pkgList1 = Some pkgList2 /\
       pkgList1 !! pkgKey gopath ps (groupName (Name p1)) path = Some F /\
       pkgList2 !! pkgKey gopath ps (groupName (Name p1)) path = Some F' /\
       dom F' = dom F /\
       (forall key, length (at_key F' key) = (2 * length (at_key F key))%nat)).
Proof.
  split; [apply aggregate_self |].
  intros gopath ps path p1 p2 Hname Hexp Hfiles Hnew.
  destruct (processPackage_aggregate gopath ps path p1) as [F HF].
  assert (HF2 : forall c, processPackage Lower gopath ps path p2 c =
            Some (aggregate (pkgKey gopath ps (groupName (Name p1)) path) F c)).
  { intros c. rewrite <- HF. unfold processPackage.
    now rewrite Hname, Hexp, Hfiles. }
  set (key := pkgKey gopath ps (groupName (Name p1)) path) in *.
  assert (H1 : aggregate key F pkgList = <[key := F]> pkgList).
  { unfold aggregate, pkg_at. rewrite Hnew. reflexivity. }
  destruct (aggregate_self F key pkgList) as (F' & HF' & Hdom & _ & Hlen & _).
  exists F, F', (<[key := F]> pkgList), (aggregate key F (<[key := F]> pkgList)).
  split; [now rewrite HF, H1 |]. split; [apply HF2 |].
  split; [apply lookup_insert_eq |]. split; [exact HF' |].
  split; [exact Hdom | exact Hlen].
Qed.

(** C8, as the program has it: a package whose name ends in ["_test"] is
    grouped under the name without that one suffix, any other package under
    its own name; the name of the group ends in ["_test"] exactly when the
    name of the package ends in ["_test_test"]; and every key of the
    collection is the key of one of the packages walked, so the collection
    has a group whose name ends in ["_test"] only for such a package. *)
Theorem groupName_strips_one_suffix :
  (forall X, groupName (X +:+ "_test") = X) /\
  (forall raw, HasSuffix raw "_test" = false -> groupName raw = raw) /\
  (forall raw, HasSuffix (groupName raw) "_test" = HasSuffix raw "_test_test") /\
  (forall (gopath ps : string) (dirs : list (string * list Package))
          (pkgList : pkg) (key : string),
     walk Lower gopath ps dirs ∅ = Some pkgList ->
     key ∈ dom pkgList ->
     exists path pkgs p, (path, pkgs) ∈ dirs /\ p ∈ pkgs /\
       key = pkgKey gopath ps (groupName (Name p)) path /\
       (HasSuffix (Name p) "_test_test" = false ->
        HasSuffix (groupName (Name p)) "_test" = false)).
Proof.
  split; [exact groupName_test |]. split; [exact groupName_other |].
  split; [exact groupName_suffix |].
  intros gopath ps dirs pkgList key Hw Hk.
  destruct (walk_dom Lower gopath ps dirs ∅ pkgList key Hw Hk)
    as [Hempty | (path & pkgs & p & Hin & Hp & ->)].
  - rewrite dom_empty_L in Hempty. now apply not_elem_of_empty in Hempty.
  - exists path, pkgs, p. split; [exact Hin |]. split; [exact Hp |].
    split; [reflexivity |]. intros H. now rewrite groupName_suffix.
Qed.

End AggregatorClaims.

Section TotalityClaims.

Variable Lower : Z -> bool.

(** C10: the classifier never aborts.  [isTest], [isExample], [classify]
    and the whole declaration step return for every name; [isMethodExample]
    returns whenever [isSubExample] holds, which is the only way the program
    calls it, and would abort otherwise; decoding an empty segment gives
    [(RuneError, 0)], so a name that ends in its first underscore is
    classified too; and the walk over all packages returns. *)
Theorem classifier_never_aborts (name : string) :
  (forall prefix, exists b, isTest Lower name prefix = Some b) /\
  (exists b, isExample Lower name = Some b) /\
  (isSubExample name = true ->
   exists seg2 b, Split name "_"%char !! 1%nat = Some seg2 /\
     isMethodExample Lower name = Some b) /\
  (isSubExample name = false -> isMethodExample Lower name = None) /\
  (exists k, classify Lower name = Some k) /\
  (forall (pos : string) (funcList : funcs),
     exists funcList', processDecl Lower (mkDecl name pos) funcList = Some funcList') /\
  utf8.DecodeRuneInString "" = (utf8.RuneError, 0) /\
  (forall prefix : string, exists b, isMethodExample Lower (prefix +:+ "_") = Some b) /\
  (forall (gopath ps : string) (dirs : list (string * list Package)) (pkgList : pkg),
     exists pkgList', walk Lower gopath ps dirs pkgList = Some pkgList').
Proof.
  split; [intros prefix; apply isTest_total |].
  split; [apply isTest_total |].
  split.
  { intros Hs. apply isSubExample_Split in Hs as (seg1 & seg2 & more & Hs).
    exists seg2. eexists. split; [now rewrite Hs |].
    exact (isMethodExample_Split Lower _ _ _ _ Hs). }
  split.
  { unfold isSubExample, isMethodExample.
    destruct (Split_cons name "_"%char) as (seg & [|seg2 more] & ->);
      [reflexivity | discriminate]. }
  split; [apply classify_total |].
  split; [intros pos funcList; apply processDecl_total |].
  split; [reflexivity |].
  split; [| intros gopath ps dirs pkgList; apply walk_total].
  intros prefix.
  assert (Hs : isSubExample (prefix +:+ "_") = true).
  { apply isSubExample_underscore. exists prefix, EmptyString. reflexivity. }
  apply isSubExample_Split in Hs as (seg1 & seg2 & more & Hs).
  rewrite (isMethodExample_Split Lower _ _ _ _ Hs). eauto.
Qed.

End TotalityClaims.

(** ** Concrete runs

    The tables are instantiated with the Greek and Cyrillic fragment; names
    in ASCII and Latin-1 never reach them. *)

Lemma fragment_tables_disjoint (c : Z) :
  unicode.Upper_fragment c = true -> unicode.Lower_fragment c = false.
Proof.
  unfold unicode.Upper_fragment, unicode.Lower_fragment. intros H.
  repeat match goal with
         | |- context [?a <=? ?b] => destruct (Z.leb_spec a b)
         | H : context [?a <=? ?b] |- _ => destruct (Z.leb_spec a b)
         end; simpl in *; try reflexivity; try discriminate; lia.
Qed.

(** ["Test"] followed by a two-byte lower-case letter (U+03B1, bytes CE B1)
    is no test, although neither byte alone is a lower-case letter. *)
Lemma isTest_prefixed_and_capitalized_witness :
  utf8.validRune 0x3B1 = true /\
  utf8.EncodeRune 0x3B1 = String (utf8.char_of 0xCE) (String (utf8.char_of 0xB1) "") /\
  unicode.IsLower unicode.Lower_fragment 0xCE = false /\
  unicode.IsLower unicode.Lower_fragment 0xB1 = false /\
  isTest unicode.Lower_fragment ("Test" +:+ utf8.EncodeRune 0x3B1 +:+ "s") "Test" =
    Some false.
Proof.
  split; [reflexivity |]. split; [reflexivity |]. split; [reflexivity |].
  split; [reflexivity |].
  apply (proj2 (proj2 (isTest_prefixed_and_capitalized
                         unicode.Lower_fragment "Test" "Test")) 0x3B1 "s").
  reflexivity.
Defined.

(** C2 fails for a second segment that begins with a digit or is empty: the
    name is a method example, with the segment in its key. *)
Lemma digit_segment_is_a_method_example :
  isExample unicode.Lower_fragment "ExampleFoo_1" = Some true /\
  Split "ExampleFoo_1" "_"%char = ["ExampleFoo"; "1"] /\
  unicode.IsLower unicode.Lower_fragment (fst (utf8.DecodeRuneInString "1")) = false /\
  unicode.IsUpper unicode.Upper_fragment (fst (utf8.DecodeRuneInString "1")) = false /\
  classify unicode.Lower_fragment "ExampleFoo_1" = Some (MethodExample "Foo.1") /\
  classify unicode.Lower_fragment "ExampleFoo_1" <> Some (SubExample "Foo") /\
  processFile unicode.Lower_fragment [mkDecl "ExampleFoo_1" "a.go:1:1"] ∅ =
    Some {["Foo.1" := ["a.go:1:1:" +:+ tab +:+ "ExampleFoo_1"]]} /\
  Split "ExampleFoo_" "_"%char = ["ExampleFoo"; ""] /\
  classify unicode.Lower_fragment "ExampleFoo_" = Some (MethodExample "Foo.").
Proof. repeat split; try (vm_compute; reflexivity). discriminate. Qed.

Lemma classify_SubExample_witness :
  isExample unicode.Lower_fragment "ExampleFoo_bar" = Some true /\
  Split "ExampleFoo_bar" "_"%char = ["ExampleFoo"; "bar"] /\
  classify unicode.Lower_fragment "ExampleFoo_bar" = Some (SubExample "Foo") /\
  forall (pos : string) (funcList : funcs),
    processDecl unicode.Lower_fragment (mkDecl "ExampleFoo_bar" pos) funcList =
      Some (appendExample "Foo" (entryOf (mkDecl "ExampleFoo_bar" pos)) funcList).
Proof.
  split; [reflexivity |]. split; [reflexivity |].
  destruct (classify_SubExample unicode.Lower_fragment
              "ExampleFoo_bar" "ExampleFoo" "bar" [] eq_refl eq_refl) as [Hc Hp].
  split; [exact Hc | exact (Hp eq_refl)].
Defined.

(** A method whose name begins with a two-byte upper-case letter (U+0392). *)
Lemma classify_MethodExample_witness :
  (forall c, unicode.Upper_fragment c = true -> unicode.Lower_fragment c = false) /\
  isExample unicode.Lower_fragment
    ("ExampleFoo_" +:+ utf8.EncodeRune 0x392 +:+ "ar") = Some true /\
  unicode.IsUpper unicode.Upper_fragment
    (fst (utf8.DecodeRuneInString (utf8.EncodeRune 0x392 +:+ "ar"))) = true /\
  classify unicode.Lower_fragment ("ExampleFoo_" +:+ utf8.EncodeRune 0x392 +:+ "ar") =
    Some (MethodExample ("Foo." +:+ utf8.EncodeRune 0x392 +:+ "ar")).
Proof.
  split; [exact fragment_tables_disjoint |]. split; [reflexivity |].
  split; [reflexivity |].
  exact (proj1 (proj1 (classify_MethodExample
                         unicode.Lower_fragment unicode.Upper_fragment
                         ("ExampleFoo_" +:+ utf8.EncodeRune 0x392 +:+ "ar")
                         "ExampleFoo" (utf8.EncodeRune 0x392 +:+ "ar") []
                         fragment_tables_disjoint)
                      eq_refl eq_refl eq_refl)).
Defined.

Lemma classify_FunctionExample_witness :
  isExample unicode.Lower_fragment "ExampleFoo" = Some true /\
  (forall a b, "ExampleFoo" <> a +:+ "_" +:+ b) /\
  exists suffix,
    "ExampleFoo" = "Example" +:+ suffix /\
    TrimPrefix "ExampleFoo" "Example" = suffix /\
    classify unicode.Lower_fragment "ExampleFoo" = Some (FunctionExample suffix) /\
    forall (pos : string) (funcList : funcs),
      processDecl unicode.Lower_fragment (mkDecl "ExampleFoo" pos) funcList =
        Some (appendExample suffix (entryOf (mkDecl "ExampleFoo" pos)) funcList).
Proof.
  assert (Hno : forall a b, "ExampleFoo" <> a +:+ "_" +:+ b).
  { intros a b Hab.
    assert (Hs : isSubExample "ExampleFoo" = true)
      by (apply isSubExample_underscore; eauto).
    discriminate Hs. }
  split; [reflexivity |]. split; [exact Hno |].
  exact (proj1 (classify_FunctionExample unicode.Lower_fragment "ExampleFoo")
           eq_refl Hno).
Defined.

Lemma classifier_never_aborts_witness :
  isSubExample "ExampleFoo_bar" = true /\
  exists seg2 b, Split "ExampleFoo_bar" "_"%char !! 1%nat = Some seg2 /\
    isMethodExample unicode.Lower_fragment "ExampleFoo_bar" = Some b.
Proof.
  split; [reflexivity |].
  exact (proj1 (proj2 (proj2 (classifier_never_aborts
                                unicode.Lower_fragment "ExampleFoo_bar")))
           eq_refl).
Defined.

(** C4 fails for the name of a test that an example names as its owner. *)
Lemma test_name_as_owner_key :
  isTest unicode.Lower_fragment "TestFoo" "Test" = Some true /\
  processFile unicode.Lower_fragment
    [mkDecl "TestFoo" "a_test.go:3:1"; mkDecl "ExampleTestFoo" "a_test.go:9:1"] ∅ =
    Some {["TestFoo" := ["a_test.go:9:1:" +:+ tab +:+ "ExampleTestFoo"]]} /\
  ({["TestFoo" := ["a_test.go:9:1:" +:+ tab +:+ "ExampleTestFoo"]]} : funcs)
    !! "TestFoo" <> None.
Proof. repeat split; try (vm_compute; reflexivity). vm_compute. discriminate. Qed.

Lemma tests_and_benchmarks_contribute_nothing_witness :
  isTest unicode.Lower_fragment "BenchmarkFoo" "Benchmark" = Some true /\
  forall (pos : string) (ds1 ds2 : list Declaration) (funcList : funcs),
    processFile unicode.Lower_fragment (ds1 ++ mkDecl "BenchmarkFoo" pos :: ds2) funcList =
    processFile unicode.Lower_fragment (ds1 ++ ds2) funcList.
Proof.
  split; [reflexivity |].
  exact (proj1 (proj2 (proj2 (proj1 (tests_and_benchmarks_contribute_nothing
                                       unicode.Lower_fragment "BenchmarkFoo")
                                (or_intror eq_refl))))).
Defined.

(** C9 fails: the entry has a colon between the position and the tab. *)
Lemma entry_has_a_colon_before_the_tab :
  processFile unicode.Lower_fragment [mkDecl "ExampleFoo" "a.go:1:1"] ∅ =
    Some {["Foo" := ["a.go:1:1:" +:+ tab +:+ "ExampleFoo"]]} /\
  "a.go:1:1:" +:+ tab +:+ "ExampleFoo" <> "a.go:1:1" +:+ tab +:+ "ExampleFoo".
Proof. split; [vm_compute; reflexivity | discriminate]. Qed.

(** The package ["demo"] of the specification: a function, its example and
    a test. *)
Lemma entry_is_position_colon_tab_name_witness :
  processFiles unicode.Lower_fragment
    [[mkDecl "Foo" "demo.go:3:1"];
     [mkDecl "ExampleFoo" "demo_test.go:5:1"; mkDecl "TestFoo" "demo_test.go:9:1"]] ∅ =
    Some {["Foo" := ["demo_test.go:5:1:" +:+ tab +:+ "ExampleFoo"]]} /\
  exists d,
    d ∈ concat [[mkDecl "Foo" "demo.go:3:1"];
                [mkDecl "ExampleFoo" "demo_test.go:5:1";
                 mkDecl "TestFoo" "demo_test.go:9:1"]] /\
    isExample unicode.Lower_fragment (decl_name d) = Some true /\
    "demo_test.go:5:1:" +:+ tab +:+ "ExampleFoo" =
      decl_pos d +:+ ":" +:+ tab +:+ decl_name d.
Proof.
  split; [vm_compute; reflexivity |].
  apply (entry_is_position_colon_tab_name unicode.Lower_fragment
           [[mkDecl "Foo" "demo.go:3:1"];
            [mkDecl "ExampleFoo" "demo_test.go:5:1";
             mkDecl "TestFoo" "demo_test.go:9:1"]]
           {["Foo" := ["demo_test.go:5:1:" +:+ tab +:+ "ExampleFoo"]]}
           "Foo" ["demo_test.go:5:1:" +:+ tab +:+ "ExampleFoo"]).
  - vm_compute. reflexivity.
  - vm_compute. reflexivity.
  - apply list_elem_of_here.
Defined.

(** C8 fails for a package named ["a_test_test"]: its group is named
    ["a_test"]. *)
Lemma group_name_ending_in_test :
  HasSuffix "a_test_test" "_test" = true /\
  groupName "a_test_test" = "a_test" /\
  HasSuffix (groupName "a_test_test") "_test" = true /\
  walk unicode.Lower_fragment "/go" "/"
    [("/go/src/x", [mkPackage "a_test_test" true [[mkDecl "Foo" "x.go:1:1"]]])] ∅ =
    Some {["a_test in x" := {["Foo" := []]}]}.
Proof. repeat split; vm_compute; reflexivity. Qed.

(** The packages ["demo"] and ["demo_test"] of one directory end in one
    group. *)
Lemma groupName_strips_one_suffix_witness :
  walk unicode.Lower_fragment "/go" "/"
    [("/go/src/demo",
      [mkPackage "demo" true [[mkDecl "Foo" "demo.go:3:1"]];
       mkPackage "demo_test" true [[mkDecl "ExampleFoo" "x_test.go:5:1"]]])] ∅ =
    Some {["demo in demo" :=
             {["Foo" := ["x_test.go:5:1:" +:+ tab +:+ "ExampleFoo"]]}]} /\
  "demo in demo" ∈
    dom ({["demo in demo" :=
             {["Foo" := ["x_test.go:5:1:" +:+ tab +:+ "ExampleFoo"]]}]} : pkg) /\
  exists path pkgs p,
    (path, pkgs) ∈
      [("/go/src/demo",
        [mkPackage "demo" true [[mkDecl "Foo" "demo.go:3:1"]];
         mkPackage "demo_test" true [[mkDecl "ExampleFoo" "x_test.go:5:1"]]])] /\
    p ∈ pkgs /\
    "demo in demo" = pkgKey "/go" "/" (groupName (Name p)) path /\
    (HasSuffix (Name p) "_test_test" = false ->
     HasSuffix (groupName (Name p)) "_test" = false).
Proof.
  assert (Hdom : "demo in demo" ∈
    dom ({["demo in demo" :=
             {["Foo" := ["x_test.go:5:1:" +:+ tab +:+ "ExampleFoo"]]}]} : pkg)).
  { rewrite dom_singleton_L. now apply elem_of_singleton. }
  split; [vm_compute; reflexivity |]. split; [exact Hdom |].
  exact (proj2 (proj2 (proj2 (groupName_strips_one_suffix unicode.Lower_fragment)))
           "/go" "/"
           [("/go/src/demo",
             [mkPackage "demo" true [[mkDecl "Foo" "demo.go:3:1"]];
              mkPackage "demo_test" true [[mkDecl "ExampleFoo" "x_test.go:5:1"]]])]
           ({["demo in demo" :=
                ({["Foo" := ["x_test.go:5:1:" +:+ tab +:+ "ExampleFoo"]]} : funcs)]}
            : pkg)
           "demo in demo" eq_refl Hdom).
Defined.

(** The group of ["demo"] merged with itself. *)
Lemma aggregate_with_itself_witness :
  map_to_list ({["Foo" := ["e"]]} : funcs) ≡ₚ map_to_list ({["Foo" := ["e"]]} : funcs) /\
  exists M',
    aggregate "demo in demo" {["Foo" := ["e"]]}
      (<["demo in demo" := {["Foo" := ["e"]]}]> ∅) !! "demo in demo" = Some M' /\
    dom M' = dom ({["Foo" := ["e"]]} : funcs) /\
    M' !! "Foo" = Some ["e"; "e"].
Proof.
  split; [reflexivity |].
  destruct (proj1 (aggregate_with_itself unicode.Lower_fragment
                     {["Foo" := ["e"]]} "demo in demo" ∅))
    as (M' & Hl & Hd & Hk & _).
  exists M'. split; [exact Hl |]. split; [exact Hd |].
  rewrite Hk. reflexivity.
Defined.

(** * More of the program *)

(** ** More on the classifier *)

Lemma byte_of_range (c : ascii) : 0 <= byte_of c < 256.
Proof.
  unfold byte_of. pose proof (N_ascii_bounded c) as H. lia.
Qed.

Lemma DecodeRuneInString_ascii (c : ascii) (rest : string) :
  byte_of c < 0x80 ->
  utf8.DecodeRuneInString (String c rest) = (byte_of c, 1).
Proof.
  intros H. unfold utf8.DecodeRuneInString. cbv zeta.
  assert (Hf : utf8.first (byte_of c) = utf8.as_).
  { unfold utf8.first. destruct (Z.ltb_spec (byte_of c) 128); [reflexivity | lia]. }
  rewrite Hf. change (utf8.as_ <=? utf8.as_) with true. cbv iota.
  change (Z.lnot (utf8.int32 (utf8.as_ ≪ 31) ≫ 31)) with (-1).
  change (utf8.int32 (utf8.as_ ≪ 31) ≫ 31) with 0.
  now rewrite Z.land_m1_r, Z.land_0_r, Z.lor_0_r.
Qed.

Lemma DecodeRuneInString_invalid (c : ascii) (rest : string) :
  0x80 <= byte_of c < 0xC2 \/ 0xF5 <= byte_of c ->
  utf8.DecodeRuneInString (String c rest) = (utf8.RuneError, 1).
Proof.
  intros H. unfold utf8.DecodeRuneInString. cbv zeta.
  assert (Hf : utf8.first (byte_of c) = utf8.xx).
  { unfold utf8.first.
    repeat match goal with
           | |- context [?a <? ?b] => destruct (Z.ltb_spec a b)
           | |- context [?a =? ?b] => destruct (Z.eqb_spec a b)
           end; try reflexivity; lia. }
  rewrite Hf. change (utf8.as_ <=? utf8.xx) with true. cbv iota.
  change (Z.lnot (utf8.int32 (utf8.xx ≪ 31) ≫ 31)) with 0.
  change (utf8.int32 (utf8.xx ≪ 31) ≫ 31) with (-1).
  now rewrite Z.land_0_r, Z.land_m1_r.
Qed.

Lemma DecodeRuneInString_truncated (c : ascii) :
  0xC2 <= byte_of c ->
  utf8.DecodeRuneInString (String c EmptyString) = (utf8.RuneError, 1).
Proof.
  intros H. destruct (Z.le_gt_cases 0xF5 (byte_of c)) as [Hhi|Hlo];
    [apply DecodeRuneInString_invalid; now right |].
  unfold utf8.DecodeRuneInString. cbv zeta.
  assert (Hf : In (utf8.first (byte_of c))
                 [utf8.s1; utf8.s2; utf8.s3; utf8.s4; utf8.s5; utf8.s6; utf8.s7]).
  { unfold utf8.first.
    repeat match goal with
           | |- context [?a <? ?b] => destruct (Z.ltb_spec a b)
           | |- context [?a =? ?b] => destruct (Z.eqb_spec a b)
           end; simpl; try tauto; lia. }
  simpl In in Hf.
  destruct Hf as [E|[E|[E|[E|[E|[E|[E|[]]]]]]]]; rewrite <- E; reflexivity.
Qed.

Lemma isTest_next (Lower : Z -> bool) (prefix : string) (c : ascii) (rest : string) :
  isTest Lower (prefix +:+ String c rest) prefix =
    Some (negb (unicode.IsLower Lower
                  (fst (utf8.DecodeRuneInString (String c rest))))).
Proof.
  unfold isTest. rewrite HasPrefix_app, slice_from_app. cbn [negb bind].
  destruct (Nat.eqb_spec (len (prefix +:+ String c rest)) (len prefix)) as [Hl|_];
    [| reflexivity].
  rewrite len_app in Hl. simpl in Hl. lia.
Qed.

Section MoreClassifier.

Variable Lower : Z -> bool.

(** X1: [isSubExample] holds exactly for the names that contain an
    underscore, and the segments it counts, joined by underscores, are the
    name. *)
Theorem isSubExample_iff_underscore (name : string) :
  (isSubExample name = true <-> exists a b, name = a +:+ "_" +:+ b) /\
  String.concat "_" (Split name "_"%char) = name.
Proof. split; [apply isSubExample_underscore | apply Split_join]. Qed.

(** X2: when the byte after the prefix is an ASCII byte, [isTest] is
    decided by that byte alone, whatever the Unicode tables are: it is false
    exactly for the letters a to z. *)
Theorem isTest_ascii (prefix : string) (c : ascii) (rest : string) :
  byte_of c < 0x80 ->
  isTest Lower (prefix +:+ String c rest) prefix =
    Some (negb ((0x61 <=? byte_of c) && (byte_of c <=? 0x7A))).
Proof.
  intros H. rewrite isTest_next, DecodeRuneInString_ascii by exact H.
  cbn [fst]. do 2 f_equal.
  unfold unicode.IsLower, unicode.MaxLatin1, unicode.latin1_lower.
  destruct (Z.leb_spec (byte_of c) 255); [| lia].
  repeat match goal with
         | |- context [?a <=? ?b] => destruct (Z.leb_spec a b)
         | |- context [?a =? ?b] => destruct (Z.eqb_spec a b)
         end; simpl; try reflexivity; lia.
Qed.

(** X3: when what follows the prefix does not start with a valid
    UTF-8 sequence (a continuation byte or a byte above F4 comes first, or
    a lead byte is the last byte of the name), the rune decoded is
    [RuneError], which is no lower-case letter, and [isTest] holds. *)
Theorem isTest_invalid_utf8 (prefix : string) (c : ascii) (rest : string) :
  Lower utf8.RuneError = false ->
  0x80 <= byte_of c < 0xC2 \/ 0xF5 <= byte_of c \/
  (0xC2 <= byte_of c /\ rest = EmptyString) ->
  isTest Lower (prefix +:+ String c rest) prefix = Some true.
Proof.
  intros HL H. rewrite isTest_next.
  assert (Hd : utf8.DecodeRuneInString (String c rest) = (utf8.RuneError, 1)).
  { destruct H as [H | [H | [H ->]]].
    - apply DecodeRuneInString_invalid. now left.
    - apply DecodeRuneInString_invalid. now right.
    - now apply DecodeRuneInString_truncated. }
  rewrite Hd. cbn [fst]. unfold unicode.IsLower.
  change (utf8.RuneError <=? unicode.MaxLatin1) with false. cbv iota.
  now rewrite HL.
Qed.

End MoreClassifier.

(** ** Keys and lists of one package *)

Lemma Split_segment_no_sep (s : string) (sep : ascii) (seg : string) :
  seg ∈ Split s sep -> Split seg sep = [seg].
Proof.
  revert seg. induction s as [|c s IH]; intros seg Hin.
  - simpl in Hin. apply list_elem_of_singleton in Hin as ->. reflexivity.
  - simpl in Hin. destruct (Ascii.eqb c sep) eqn:Hc.
    + apply elem_of_cons in Hin as [-> | Hin]; [reflexivity | now apply IH].
    + destruct (Split_cons s sep) as (seg0 & segs & Hs). rewrite Hs in *.
      apply elem_of_cons in Hin as [-> | Hin].
      * simpl. rewrite Hc. rewrite (IH seg0); [reflexivity | apply list_elem_of_here].
      * apply IH. now apply list_elem_of_further.
Qed.

Lemma Split_single_join (s : string) (sep : ascii) (seg : string) :
  Split s sep = [seg] -> seg = s.
Proof. intros H. pose proof (Split_join s sep) as Hj. now rewrite H in Hj. Qed.

Lemma Split_dot (a b : string) :
  Split a "_"%char = [a] -> Split b "_"%char = [b] ->
  Split (a +:+ "." +:+ b) "_"%char = [a +:+ "." +:+ b].
Proof.
  intros Ha Hb. apply (Split_app_no_sep a _ _ _ _ Ha).
  now apply (Split_app_no_sep "." b).
Qed.

Lemma isSubExample_single (s : string) :
  Split s "_"%char = [s] -> isSubExample s = false.
Proof. unfold isSubExample. now intros ->. Qed.

Section MoreGrouping.

Variable Lower : Z -> bool.

(** X4: the key of an example never contains an underscore, so
    no example is ever filed under a function whose name has one. *)
Theorem example_key_has_no_underscore (name : string) (k : Kind) :
  classify Lower name = Some k ->
  isExampleKind k = true ->
  exists key, ownerKey k = Some key /\
    isSubExample key = false /\
    forall a b, key <> a +:+ "_" +:+ b.
Proof.
  intros Hk Hex.
  assert (Hgoal : exists key, ownerKey k = Some key /\ isSubExample key = false).
  { pose proof (classify_example_kind Lower name k Hk Hex) as He.
    destruct (isExample_inv Lower name He) as [rest Hn].
    destruct (Split_cons rest "_"%char) as (seg & [|seg2 more] & Hr).
    - assert (Hs : isSubExample name = false).
      { unfold isSubExample. rewrite Hn, (Split_Example _ _ _ Hr). reflexivity. }
      rewrite (classify_function_example Lower name rest Hn He Hs) in Hk.
      injection Hk as <-. exists rest. split; [reflexivity |].
      apply isSubExample_single.
      now rewrite Hr, (Split_single_join _ _ _ Hr).
    - rewrite (classify_sub_or_method Lower name rest seg seg2 more Hn He Hr) in Hk.
      assert (H1 : Split seg "_"%char = [seg]).
      { apply (Split_segment_no_sep rest). rewrite Hr. apply list_elem_of_here. }
      assert (H2 : Split seg2 "_"%char = [seg2]).
      { apply (Split_segment_no_sep rest). rewrite Hr.
        apply list_elem_of_further, list_elem_of_here. }
      destruct (unicode.IsLower Lower _); injection Hk as <-.
      + exists seg. split; [reflexivity | now apply isSubExample_single].
      + exists (seg +:+ "." +:+ seg2). split; [reflexivity |].
        apply isSubExample_single. now apply Split_dot. }
  destruct Hgoal as (key & Ho & Hs). exists key. split; [exact Ho |].
  split; [exact Hs |]. intros a b Hab.
  assert (Ht : isSubExample key = true) by (apply isSubExample_underscore; eauto).
  congruence.
Qed.

Lemma processDecl_at_key (d : Declaration) (m m' : funcs) (key : string) :
  processDecl Lower d m = Some m' ->
  at_key m' key =
    if resets Lower key d then []
    else if ownsExample Lower key d then at_key m key ++ [entryOf d]
    else at_key m key.
Proof.
  rewrite processDecl_classify. unfold resets, ownsExample.
  destruct (classify Lower (decl_name d)) as [k|]; [|discriminate].
  simpl. intros [= <-].
  assert (Happ : forall key', at_key (appendExample key' (entryOf d) m) key =
            if String.eqb key' key then at_key m key ++ [entryOf d]
            else at_key m key).
  { intros key'. unfold at_key at 1. rewrite lookup_appendExample.
    destruct (String.eqb_spec key' key) as [->|Hne].
    - now rewrite decide_True.
    - now rewrite decide_False. }
  destruct k as [| |key'|key'|key'|key']; simpl; try reflexivity; try apply Happ.
  unfold at_key. rewrite lookup_insert.
  destruct (String.eqb_spec key' key) as [->|Hne].
  - now rewrite decide_True.
  - now rewrite decide_False.
Qed.

Lemma processDecl_dom (d : Declaration) (m m' : funcs) (k : Kind) :
  classify Lower (decl_name d) = Some k ->
  processDecl Lower d m = Some m' ->
  dom m' = dom m ∪ match ownerKey k with Some key => {[key]} | None => ∅ end.
Proof.
  intros Hk. rewrite processDecl_classify, Hk. simpl. intros [= <-].
  destruct k; simpl; unfold appendExample; rewrite ?dom_insert_L;
    first [now rewrite union_empty_r_L | apply union_comm_L].
Qed.

Lemma processFile_at_key (key : string) (ds : list Declaration) (m : funcs) :
  (forall d, d ∈ ds -> resets Lower key d = false) ->
  exists m', processFile Lower ds m = Some m' /\
    at_key m' key = at_key m key ++ examplesFor Lower key ds.
Proof.
  revert m. induction ds as [|d ds IH]; intros m Hno.
  - exists m. split; [reflexivity |]. unfold examplesFor. simpl.
    now rewrite app_nil_r.
  - destruct (processDecl_total Lower d m) as [m1 Hd].
    destruct (IH m1) as (m' & Hrun & Hat).
    { intros d' Hd'. apply Hno. now apply list_elem_of_further. }
    exists m'. split; [simpl; rewrite Hd; exact Hrun |].
    rewrite Hat, (processDecl_at_key d m m1 key Hd).
    rewrite (Hno d) by apply list_elem_of_here.
    unfold examplesFor. simpl. destruct (ownsExample Lower key d); simpl.
    + now rewrite <- app_assoc.
    + reflexivity.
Qed.

(** X5: when a file has no plain declaration named [key], the list
    at [key] after the file is the list before it followed by the entries of
    the examples of [key], in the order of the file. *)
Theorem examples_kept_in_order (key : string) (ds : list Declaration) (m : funcs) :
  (forall d, d ∈ ds -> resets Lower key d = false) ->
  exists m', processFile Lower ds m = Some m' /\
    at_key m' key = at_key m key ++ examplesFor Lower key ds.
Proof. apply processFile_at_key. Qed.

(** X6: after the last plain declaration named [key] the list at
    [key] holds the entries of the examples of [key] that follow it and
    nothing of what preceded it. *)
Theorem examples_before_a_plain_declaration_are_lost
  (key : string) (ds1 ds2 : list Declaration) (d : Declaration) (m : funcs) :
  resets Lower key d = true ->
  (forall d', d' ∈ ds2 -> resets Lower key d' = false) ->
  exists m', processFile Lower (ds1 ++ d :: ds2) m = Some m' /\
    at_key m' key = examplesFor Lower key ds2.
Proof.
  intros Hd Hno.
  destruct (processFile_total Lower ds1 m) as [m1 H1].
  destruct (processDecl_total Lower d m1) as [m2 H2].
  destruct (processFile_at_key key ds2 m2 Hno) as (m' & H3 & Hat).
  exists m'. split.
  - rewrite processFile_app, H1. simpl. now rewrite H2.
  - rewrite Hat, (processDecl_at_key d m1 m2 key H2), Hd. reflexivity.
Qed.

Lemma processFile_dom (ds : list Declaration) (m m' : funcs) (key : string) :
  processFile Lower ds m = Some m' ->
  key ∈ dom m' <->
  key ∈ dom m \/
  exists d k, d ∈ ds /\ classify Lower (decl_name d) = Some k /\
    ownerKey k = Some key.
Proof.
  revert m. induction ds as [|d ds IH]; intros m Hrun.
  - injection Hrun as <-. split; [now left |].
    intros [H | (d & k & Hd & _)]; [exact H | inversion Hd].
  - simpl in Hrun. apply bind_Some in Hrun as (m1 & Hd & Hrun).
    destruct (classify_total Lower (decl_name d)) as [k Hk].
    rewrite (IH m1 Hrun), (processDecl_dom d m m1 k Hk Hd), elem_of_union.
    split.
    + intros [[H | H] | (d' & k' & Hd' & Hk')].
      * now left.
      * right. exists d, k. split; [apply list_elem_of_here |].
        split; [exact Hk |]. destruct (ownerKey k) as [key'|].
        -- apply elem_of_singleton in H as ->. reflexivity.
        -- now apply not_elem_of_empty in H.
      * right. exists d', k'. split; [now apply list_elem_of_further | exact Hk'].
    + intros [H | (d' & k' & Hd' & Hk' & Ho)]; [left; now left |].
      apply elem_of_cons in Hd' as [-> | Hd'].
      * left. right. rewrite Hk in Hk'. injection Hk' as <-. rewrite Ho.
        now apply elem_of_singleton.
      * right. now exists d', k'.
Qed.

(** X7: the keys of the map after a file are the keys it had and
    the keys of the declarations that are neither tests nor benchmarks: a
    function is listed whether it has an example or not, and no key is ever
    removed. *)
Theorem every_declaration_has_its_key (ds : list Declaration) (m : funcs) :
  exists m', processFile Lower ds m = Some m' /\
    forall key,
      key ∈ dom m' <->
      key ∈ dom m \/
      exists d k, d ∈ ds /\ classify Lower (decl_name d) = Some k /\
        ownerKey k = Some key.
Proof.
  destruct (processFile_total Lower ds m) as [m' Hrun]. exists m'.
  split; [exact Hrun |]. intros key. now apply processFile_dom.
Qed.

End MoreGrouping.

(** ** Groups of the collection *)

Lemma no_space_key_inj (n1 n2 p1 p2 : string) :
  (forall a b, n1 <> a +:+ " " +:+ b) ->
  (forall a b, n2 <> a +:+ " " +:+ b) ->
  n1 +:+ " in " +:+ p1 = n2 +:+ " in " +:+ p2 ->
  n1 = n2 /\ p1 = p2.
Proof.
  revert n2. induction n1 as [|c1 n1 IH]; intros [|c2 n2] H1 H2 H.
  - split; [reflexivity |]. now injection H.
  - exfalso. rewrite string_app_cons in H. injection H as <- _.
    now apply (H2 EmptyString n2).
  - exfalso. rewrite string_app_cons in H. injection H as -> _.
    now apply (H1 EmptyString n1).
  - rewrite !string_app_cons in H. injection H as -> H.
    destruct (IH n2) as [-> ->]; [| | exact H | now split].
    + intros a b Hab. apply (H1 (String c2 a) b). now rewrite Hab.
    + intros a b Hab. apply (H2 (String c2 a) b). now rewrite Hab.
Qed.

Section MoreAggregator.

Variable Lower : Z -> bool.

(** X8: whichever branch of lines 116-122 runs, the group of the
    package then holds, at every key of the new map, the list the group had
    followed by the new list, and at every other key what it had; the other
    groups are untouched, and the order in which [range] visits the new map
    does not matter. *)
Theorem aggregate_is_a_union (pkgName : string) (funcList : funcs) (pkgList : pkg) :
  (exists G,
     aggregate pkgName funcList pkgList !! pkgName = Some G /\
     forall key,
       G !! key =
         match funcList !! key with
         | Some v => Some (at_key (pkg_at pkgList pkgName) key ++ v)
         | None => pkg_at pkgList pkgName !! key
         end) /\
  (forall other, other <> pkgName ->
     aggregate pkgName funcList pkgList !! other = pkgList !! other) /\
  (forall kvs, kvs ≡ₚ map_to_list funcList ->
     unionInto (pkg_at pkgList pkgName) kvs =
     unionInto (pkg_at pkgList pkgName) (map_to_list funcList)).
Proof.
  assert (Horder : forall kvs, kvs ≡ₚ map_to_list funcList ->
            unionInto (pkg_at pkgList pkgName) kvs =
            unionInto (pkg_at pkgList pkgName) (map_to_list funcList))
    by (intros kvs; apply unionInto_any_order).
  cut ((exists G,
          aggregate pkgName funcList pkgList !! pkgName = Some G /\
          forall key,
            G !! key =
              match funcList !! key with
              | Some v => Some (at_key (pkg_at pkgList pkgName) key ++ v)
              | None => pkg_at pkgList pkgName !! key
              end) /\
       (forall other, other <> pkgName ->
          aggregate pkgName funcList pkgList !! other = pkgList !! other)).
  { intros [H1 H2]. split; [exact H1 | split; [exact H2 | exact Horder]]. }
  clear Horder. unfold aggregate.
  destruct (Nat.eqb_spec (size (pkg_at pkgList pkgName)) 0) as [Hz|Hnz]; simpl.
  - split.
    + exists funcList. rewrite lookup_insert_eq. split; [reflexivity |].
      intros key. apply map_size_empty_iff in Hz. rewrite Hz.
      unfold at_key. rewrite lookup_empty. simpl. now destruct (funcList !! key).
    + intros other Hne. now rewrite lookup_insert_ne.
  - split.
    + eexists. rewrite lookup_insert_eq. split; [reflexivity |].
      intros key. apply unionInto_map_to_list.
    + intros other Hne. now rewrite lookup_insert_ne.
Qed.

Lemma processDir_groups (gopath ps path : string) (pkgs : list Package)
  (pkgList pkgList' : pkg) (key : string) :
  processDir Lower gopath ps path pkgs pkgList = Some pkgList' ->
  key ∈ dom pkgList \/
  (exists p, p ∈ pkgs /\ key = pkgKey gopath ps (groupName (Name p)) path) ->
  key ∈ dom pkgList'.
Proof.
  revert pkgList. induction pkgs as [|p pkgs IH]; intros pkgList H Hk.
  - injection H as <-. destruct Hk as [Hk | (p & Hp & _)]; [exact Hk | inversion Hp].
  - simpl in H. apply bind_Some in H as (c & Hp & H).
    apply (IH c H). rewrite (processPackage_dom _ _ _ _ _ _ _ Hp).
    destruct Hk as [Hk | (q & Hq & ->)].
    + left. apply elem_of_union. now right.
    + apply elem_of_cons in Hq as [-> | Hq].
      * left. apply elem_of_union. left. now apply elem_of_singleton.
      * right. now exists q.
Qed.

Lemma walk_groups (gopath ps : string) (dirs : list (string * list Package))
  (pkgList pkgList' : pkg) (key : string) :
  walk Lower gopath ps dirs pkgList = Some pkgList' ->
  key ∈ dom pkgList \/
  (exists path pkgs p, (path, pkgs) ∈ dirs /\ p ∈ pkgs /\
     key = pkgKey gopath ps (groupName (Name p)) path) ->
  key ∈ dom pkgList'.
Proof.
  revert pkgList. induction dirs as [|[path pkgs] dirs IH]; intros pkgList H Hk.
  - injection H as <-.
    destruct Hk as [Hk | (? & ? & ? & Hp & _)]; [exact Hk | inversion Hp].
  - simpl in H. apply bind_Some in H as (c & Hd & H). apply (IH c H).
    destruct Hk as [Hk | (path' & pkgs' & q & Hin & Hq & ->)].
    + left. apply (processDir_groups _ _ _ _ _ _ _ Hd). now left.
    + apply elem_of_cons in Hin as [[= -> ->] | Hin].
      * left. apply (processDir_groups _ _ _ _ _ _ _ Hd). right. now exists q.
      * right. now exists path', pkgs', q.
Qed.

(** X9: the walk never fails, and the keys of the collection
    after it are those it had and the keys of all the packages walked; a
    package without exported identifiers gets a group too, empty when the
    group is new. *)
Theorem every_package_has_a_group (gopath ps : string)
  (dirs : list (string * list Package)) (pkgList : pkg) :
  exists pkgList',
    walk Lower gopath ps dirs pkgList = Some pkgList' /\
    (forall key,
       key ∈ dom pkgList' <->
       key ∈ dom pkgList \/
       exists path pkgs p, (path, pkgs) ∈ dirs /\ p ∈ pkgs /\
         key = pkgKey gopath ps (groupName (Name p)) path) /\
    (forall path p,
       PackageExports p = false ->
       pkgList !! pkgKey gopath ps (groupName (Name p)) path = None ->
       processPackage Lower gopath ps path p pkgList =
         Some (<[pkgKey gopath ps (groupName (Name p)) path := ∅]> pkgList)).
Proof.
  destruct (walk_total Lower gopath ps dirs pkgList) as [pkgList' Hw].
  exists pkgList'. split; [exact Hw |]. split.
  - intros key. split.
    + now apply (walk_dom Lower gopath ps dirs pkgList pkgList').
    + now apply (walk_groups gopath ps dirs pkgList pkgList').
  - intros path p Hexp Hnew. unfold processPackage. rewrite Hexp. simpl.
    unfold aggregate, pkg_at. now rewrite Hnew.
Qed.

(** X10: for a directory under [$GOPATH/src] the key of a group is
    the name, [" in "] and the path relative to [$GOPATH/src]; two such keys
    are equal only for the same name and the same relative path (package
    names hold no space). *)
Theorem groups_do_not_collide (gopath ps n1 n2 rel1 rel2 : string) :
  (forall a b, n1 <> a +:+ " " +:+ b) ->
  (forall a b, n2 <> a +:+ " " +:+ b) ->
  let root := gopath +:+ ps +:+ "src" +:+ ps in
  pkgKey gopath ps n1 (root +:+ rel1) = n1 +:+ " in " +:+ rel1 /\
  (pkgKey gopath ps n1 (root +:+ rel1) = pkgKey gopath ps n2 (root +:+ rel2) ->
   n1 = n2 /\ rel1 = rel2).
Proof.
  intros H1 H2 root. unfold pkgKey. fold root. rewrite !TrimPrefix_app.
  split; [reflexivity |]. intros H. now apply no_space_key_inj.
Qed.

End MoreAggregator.

(** ** The report *)

Lemma string_app_empty_r (s : string) : s +:+ EmptyString = s.
Proof.
  induction s as [|c s IH]; [reflexivity | now rewrite string_app_cons, IH].
Qed.

Lemma foldl_append {A : Type} (f : A -> string) (out : string) (l : list A) :
  foldl (fun acc x => acc +:+ f x) out l = out +:+ joinAll (List.map f l).
Proof.
  revert out. induction l as [|x l IH]; intros out; simpl.
  - unfold joinAll. simpl. now rewrite string_app_empty_r.
  - rewrite IH. unfold joinAll. simpl. now rewrite string_app_assoc.
Qed.

Lemma foldl_same {A B : Type} (f g : B -> A -> B) (b : B) (l : list A) :
  (forall acc x, f acc x = g acc x) -> foldl f b l = foldl g b l.
Proof.
  intros H. revert b. induction l as [|x l IH]; intros b; [reflexivity |].
  simpl. now rewrite H, IH.
Qed.

Lemma renderOwner_block (k out : string) (ij : string * list string) :
  renderOwner k out ij = out +:+ ownerBlock k ij.
Proof.
  destruct ij as [i j]. unfold renderOwner, ownerBlock. cbn [fst snd].
  assert (Hhead : (if String.eqb i "" then
                     out +:+ (tab +:+ "Package level example:" +:+ newline)
                   else out +:+ (tab +:+ i +:+ newline)) =
                  out +:+ (tab +:+ (if String.eqb i "" then "Package level example:"
                                    else i) +:+ newline)).
  { now destruct (String.eqb i ""). }
  rewrite Hhead. destruct j as [|m j].
  - simpl. now rewrite string_app_assoc.
  - cbn [length Nat.eqb negb]. unfold renderEntry.
    rewrite (foldl_append (fun m => tab +:+ tab +:+ m +:+ newline)).
    now rewrite string_app_assoc.
Qed.

Lemma renderGroup_block (out : string) (kv : string * list (string * list string)) :
  renderGroup out kv = out +:+ groupBlock kv.
Proof.
  destruct kv as [k v]. unfold renderGroup, groupBlock. cbn [fst snd].
  assert (H : forall out', foldl (renderOwner k) out' v =
                           out' +:+ joinAll (List.map (ownerBlock k) v)).
  { intros out'. rewrite <- (foldl_append (ownerBlock k)).
    apply foldl_same. intros acc x. apply renderOwner_block. }
  now rewrite H, string_app_assoc.
Qed.

Lemma renderGroups_blocks (groups : list (string * list (string * list string))) :
  renderGroups groups = joinAll (List.map groupBlock groups).
Proof.
  unfold renderGroups.
  transitivity (foldl (fun acc kv => acc +:+ groupBlock kv) EmptyString groups).
  - apply foldl_same. intros acc kv. apply renderGroup_block.
  - now rewrite foldl_append.
Qed.

Lemma occursIn_refl (x : string) : occursIn x x.
Proof.
  exists EmptyString, EmptyString.
  now rewrite string_app_empty_r, string_app_nil_l.
Qed.

Lemma occursIn_trans (x y z : string) : occursIn x y -> occursIn y z -> occursIn x z.
Proof.
  intros (p1 & q1 & ->) (p2 & q2 & ->). exists (p2 +:+ p1), (q1 +:+ q2).
  now rewrite !string_app_assoc.
Qed.

Lemma occursIn_app_l (x a b : string) : occursIn x a -> occursIn x (a +:+ b).
Proof.
  intros (p & q & ->). exists p, (q +:+ b). now rewrite !string_app_assoc.
Qed.

Lemma occursIn_app_r (x a b : string) : occursIn x b -> occursIn x (a +:+ b).
Proof.
  intros (p & q & ->). exists (a +:+ p), q. now rewrite !string_app_assoc.
Qed.

Lemma occursIn_joinAll (x : string) (l : list string) :
  x ∈ l -> occursIn x (joinAll l).
Proof.
  induction l as [|y l IH]; intros Hin; [inversion Hin |].
  change (joinAll (y :: l)) with (y +:+ joinAll l).
  apply elem_of_cons in Hin as [-> | Hin].
  - apply occursIn_app_l, occursIn_refl.
  - now apply occursIn_app_r, IH.
Qed.

Lemma len_joinAll_perm (l1 l2 : list string) :
  l1 ≡ₚ l2 -> len (joinAll l1) = len (joinAll l2).
Proof.
  induction 1 as [|x l1 l2 _ IH|x y l|l1 l2 l3 _ IH1 _ IH2].
  - reflexivity.
  - change (joinAll (x :: ?l)) with (x +:+ joinAll l).
    change (len (x +:+ joinAll l1) = len (x +:+ joinAll l2)).
    rewrite !len_app. now rewrite IH.
  - change (len (y +:+ x +:+ joinAll l) = len (x +:+ y +:+ joinAll l)).
    rewrite !len_app. lia.
  - now rewrite IH1.
Qed.

Lemma len_joinAll_Forall2 {A : Type} (f g : A -> string) (l1 l2 : list A) :
  Forall2 (fun a b => len (f a) = len (g b)) l1 l2 ->
  len (joinAll (List.map f l1)) = len (joinAll (List.map g l2)).
Proof.
  induction 1 as [|a b l1 l2 Hab _ IH]; [reflexivity |].
  change (len (f a +:+ joinAll (List.map f l1)) =
          len (g b +:+ joinAll (List.map g l2))).
  rewrite !len_app. now rewrite Hab, IH.
Qed.

Lemma len_groupBlock (a b : string * list (string * list string)) :
  a.1 = b.1 -> a.2 ≡ₚ b.2 -> len (groupBlock a) = len (groupBlock b).
Proof.
  destruct a as [k v], b as [k' v']. cbn [fst snd]. intros <- Hp.
  unfold groupBlock. cbn [fst snd]. rewrite !len_app. f_equal.
  apply len_joinAll_perm. now apply Permutation_map.
Qed.

Lemma sameCollection_elem (g1 g2 : list (string * list (string * list string)))
  (k : string) (owners : list (string * list string)) :
  sameCollection g1 g2 -> (k, owners) ∈ g1 ->
  exists owners', (k, owners') ∈ g2 /\ owners ≡ₚ owners'.
Proof.
  intros (g & Hp & Hf) Hin. rewrite Hp in Hin.
  apply list_elem_of_lookup in Hin as [n Hn].
  destruct (Forall2_lookup_l _ _ _ _ _ Hf Hn) as ([k' owners'] & Hn' & Hk & Ho).
  cbn [fst snd] in *. subst k'. exists owners'.
  split; [| exact Ho]. apply list_elem_of_lookup. now exists n.
Qed.

Lemma groupsOf_elem (p : pkg) (k : string) (v : funcs) :
  p !! k = Some v -> (k, map_to_list v) ∈ groupsOf p.
Proof.
  intros H. unfold groupsOf. apply list_elem_of_In.
  apply (in_map (fun kv : string * funcs => (kv.1, map_to_list kv.2)) _ (k, v)).
  apply list_elem_of_In. now apply elem_of_map_to_list.
Qed.

(** X11: in whatever order the maps are visited, the report has
    the line of every group, and for every owner its line (or the line for
    the package itself when the key is empty) directly followed by its
    entries in their order, each on a line after two tabs, or by the line
    that says there is none. *)
Theorem report_shows_every_owner
  (p : pkg) (groups : list (string * list (string * list string)))
  (k : string) (v : funcs) (i : string) (j : list string) :
  sameCollection (groupsOf p) groups ->
  p !! k = Some v ->
  v !! i = Some j ->
  occursIn ("Package " +:+ k +:+ newline) (renderGroups groups) /\
  occursIn
    ((tab +:+ (if String.eqb i "" then "Package level example:" else i)
      +:+ newline)
     +:+ match j with
         | [] => tab +:+ tab +:+ "No Examples for function " +:+ i
                 +:+ " in package " +:+ k +:+ newline
         | _ => joinAll (List.map (fun m => tab +:+ tab +:+ m +:+ newline) j)
         end)
    (renderGroups groups) /\
  forall m, m ∈ j -> occursIn (tab +:+ tab +:+ m +:+ newline) (renderGroups groups).
Proof.
  intros Hsame Hk Hi.
  destruct (sameCollection_elem _ _ k (map_to_list v) Hsame (groupsOf_elem p k v Hk))
    as (owners & Hg & Hperm).
  assert (Ho : (i, j) ∈ owners).
  { rewrite <- Hperm. now apply elem_of_map_to_list. }
  rewrite renderGroups_blocks.
  assert (Hgb : occursIn (groupBlock (k, owners))
                  (joinAll (List.map groupBlock groups))).
  { apply occursIn_joinAll. apply list_elem_of_In, in_map, list_elem_of_In, Hg. }
  assert (Hob : occursIn (ownerBlock k (i, j)) (groupBlock (k, owners))).
  { unfold groupBlock. cbn [fst snd]. apply occursIn_app_r, occursIn_joinAll.
    apply list_elem_of_In, in_map, list_elem_of_In, Ho. }
  split; [| split].
  - apply (occursIn_trans _ _ _ (occursIn_app_l _ _ _ (occursIn_refl _)) Hgb).
  - exact (occursIn_trans _ _ _ Hob Hgb).
  - intros m Hm.
    apply (occursIn_trans _ (ownerBlock k (i, j)));
      [| exact (occursIn_trans _ _ _ Hob Hgb)].
    unfold ownerBlock. cbn [fst snd]. apply occursIn_app_r.
    destruct j as [|m0 j]; [inversion Hm |].
    apply occursIn_joinAll.
    apply list_elem_of_In, (in_map (fun m => tab +:+ tab +:+ m +:+ newline)),
      list_elem_of_In, Hm.
Qed.

(** X12: the order in which the maps are visited changes the
    order of the blocks of the report and not its length. *)
Theorem report_length_in_any_order
  (p : pkg) (groups : list (string * list (string * list string))) :
  sameCollection (groupsOf p) groups ->
  len (renderGroups groups) = len (pkg_String p).
Proof.
  intros (g & Hp & Hf). unfold pkg_String. rewrite !renderGroups_blocks. symmetry.
  transitivity (len (joinAll (List.map groupBlock g))).
  - apply len_joinAll_perm. now apply Permutation_map.
  - apply len_joinAll_Forall2.
    eapply Forall2_impl; [exact Hf |].
    intros a b [H1 H2]. now apply len_groupBlock.
Qed.

(** ** The walk over the directories and [main] *)

Lemma lookup_last_cons {A : Type} (x y : A) (l : list A) :
  (x :: y :: l) !! (length (x :: y :: l) - 1)%nat =
  (y :: l) !! (length (y :: l) - 1)%nat.
Proof. simpl. now rewrite Nat.sub_0_r. Qed.

(** The last segment of a path and what stands before it. *)
Lemma cmdName_spec (path : string) (sep : ascii) :
  exists dir cmd,
    cmdName path sep = Some cmd /\
    path = dir +:+ cmd /\
    Split cmd sep = [cmd] /\
    (dir = EmptyString /\ Split path sep = [path] \/
     exists d, dir = d +:+ String sep EmptyString).
Proof.
  unfold cmdName. induction path as [|c s (dir & cmd & Hc & Hs & Hcmd & Hdir)].
  - exists EmptyString, EmptyString. simpl. split; [reflexivity |].
    split; [reflexivity |]. split; [reflexivity | now left].
  - simpl Split. destruct (Ascii.eqb c sep) eqn:Hsep.
    + apply Ascii.eqb_eq in Hsep as ->.
      destruct (Split_cons s sep) as (seg & segs & Hsp). rewrite Hsp in *.
      rewrite lookup_last_cons. exists (String sep dir), cmd.
      split; [exact Hc |]. split; [now rewrite string_app_cons, <- Hs |].
      split; [exact Hcmd |]. right.
      destruct Hdir as [[-> _] | [d ->]].
      * now exists EmptyString.
      * exists (String sep d). now rewrite string_app_cons.
    + destruct (Split_cons s sep) as (seg & segs & Hsp). rewrite Hsp in *.
      destruct segs as [|seg2 segs].
      * exists EmptyString, (String c seg). simpl.
        pose proof (Split_single_join _ _ _ Hsp) as ->.
        split; [reflexivity |]. split; [reflexivity |].
        rewrite Hsep, Hsp. split; [reflexivity | now left].
      * rewrite lookup_last_cons. rewrite lookup_last_cons in Hc.
        exists (String c dir), cmd.
        split; [exact Hc |]. split; [now rewrite string_app_cons, <- Hs |].
        split; [exact Hcmd |]. right.
        destruct Hdir as [[_ Hone] | [d ->]]; [discriminate Hone |].
        exists (String c d). now rewrite string_app_cons.
Qed.

Lemma Split_single_no_sep (s : string) (sep : ascii) :
  Split s sep = [s] -> forall a b, s <> a +:+ String sep b.
Proof.
  intros Hs a. revert s Hs. induction a as [|c a IH]; intros s Hs b Hab.
  - rewrite string_app_nil_l in Hab. subst s. simpl in Hs.
    rewrite Ascii.eqb_refl in Hs.
    destruct (Split_cons b sep) as (seg & segs & Hb). rewrite Hb in Hs.
    discriminate.
  - rewrite string_app_cons in Hab. subst s. simpl in Hs.
    destruct (Split_cons (a +:+ String sep b) sep) as (seg & segs & Hsp).
    rewrite Hsp in Hs. destruct (Ascii.eqb c sep); [discriminate |].
    injection Hs as -> ->. exact (IH _ Hsp b eq_refl).
Qed.

Section MoreMain.

Variable Lower : Z -> bool.

Lemma fp_walk_dir (path : string) (pkgs : list Package) (es : list FsNode) :
  fp_walk (FsDir path pkgs es) =
    ((path, pkgs) :: (walkEntries es).1, (walkEntries es).2).
Proof. reflexivity. Qed.

Lemma walkEntries_file (f : string) (es : list FsNode) :
  walkEntries (FsFile f :: es) = ([], SkipDir).
Proof. reflexivity. Qed.

Lemma walkEntries_dir (p : string) (k : list Package) (es' es : list FsNode) :
  walkEntries (FsDir p k es' :: es) =
    ((fp_walk (FsDir p k es')).1 ++ (walkEntries es).1, (walkEntries es).2).
Proof.
  change (walkEntries (FsDir p k es' :: es))
    with (match (fp_walk (FsDir p k es')).2 with
          | SkipDir | _ =>
              ((fp_walk (FsDir p k es')).1 ++ (walkEntries es).1,
               (walkEntries es).2)
          end).
  now destruct (fp_walk (FsDir p k es')).2.
Qed.

Lemma walkEntries_cut (es1 es2 : list FsNode) (f : string) :
  (walkEntries (es1 ++ FsFile f :: es2)).1 = (walkEntries es1).1.
Proof.
  induction es1 as [|[f'|p k es] es1 IH]; [reflexivity | reflexivity |].
  rewrite <- app_comm_cons, !walkEntries_dir. cbn [fst]. now rewrite IH.
Qed.

Lemma walkEntries_all_dirs (es : list FsNode) :
  Forall (fun e => exists p k es', e = FsDir p k es') es ->
  (walkEntries es).1 = concat (List.map Walk es).
Proof.
  induction 1 as [|e es (p & k & es' & ->) _ IH]; [reflexivity |].
  rewrite walkEntries_dir. cbn [fst]. rewrite IH. reflexivity.
Qed.

(** X13: in a directory the entries that follow the first file
    are not walked (line 63 answers [SkipDir] for the file): only the
    sub-directories listed before the first file are parsed, each after its
    parent; a root that is a file gives nothing. *)
Theorem entries_after_a_file_are_not_walked
  (path : string) (pkgs : list Package) (es1 es2 : list FsNode) (f : string) :
  Walk (FsDir path pkgs (es1 ++ FsFile f :: es2)) = Walk (FsDir path pkgs es1) /\
  Walk (FsFile f) = [] /\
  (Forall (fun e => exists p k es, e = FsDir p k es) es1 ->
   Walk (FsDir path pkgs (es1 ++ FsFile f :: es2)) =
     (path, pkgs) :: concat (List.map Walk es1)).
Proof.
  assert (Hcut : Walk (FsDir path pkgs (es1 ++ FsFile f :: es2)) =
                 Walk (FsDir path pkgs es1)).
  { unfold Walk. rewrite !fp_walk_dir. cbn [fst]. now rewrite walkEntries_cut. }
  split; [exact Hcut |]. split; [reflexivity |].
  intros Hdirs. rewrite Hcut. unfold Walk at 1. rewrite fp_walk_dir. cbn [fst].
  f_equal. now apply walkEntries_all_dirs.
Qed.


(** X15: with a number of arguments other than one, [main] prints
    the usage message and exits with status 1; the command it names is what
    follows the last separator in the path of the executable. *)
Theorem usage_names_the_executable (inv : Invocation) (path : string) :
  Executable inv = inl path ->
  length (Args inv) <> 2%nat ->
  exists dir cmd,
    main Lower inv = Exit1 (usage cmd (String (PathSeparator inv) EmptyString)) /\
    path = dir +:+ cmd /\
    (forall a b, cmd <> a +:+ String (PathSeparator inv) b) /\
    (dir = EmptyString \/ exists d, dir = d +:+ String (PathSeparator inv) EmptyString).
Proof.
  intros Hexe Hargs.
  destruct (cmdName_spec path (PathSeparator inv)) as (dir & cmd & Hc & Hp & Hcmd & Hdir).
  exists dir, cmd. split; [| split; [exact Hp | split]].
  - unfold main. rewrite Hexe, Hc.
    destruct (Nat.eqb_spec (length (Args inv)) 2) as [Hlen|_]; [contradiction |].
    reflexivity.
  - now apply Split_single_no_sep.
  - destruct Hdir as [[-> _] | Hd]; [now left | now right].
Qed.


End MoreMain.

(** ** More on names *)

Section MoreNames.

Variable Lower : Z -> bool.

(** X17: an example of the package with a suffix that begins
    with a lower-case letter (["Example_second"]) is a sub-example with the
    empty key: it is filed with the examples of the package. *)
Theorem suffixed_package_example (suffix seg2 : string) (more : list string) :
  Split suffix "_"%char = seg2 :: more ->
  unicode.IsLower Lower (fst (utf8.DecodeRuneInString seg2)) = true ->
  isExample Lower ("Example_" +:+ suffix) = Some true /\
  classify Lower ("Example_" +:+ suffix) = Some (SubExample "") /\
  forall (pos : string) (funcList : funcs),
    processDecl Lower (mkDecl ("Example_" +:+ suffix) pos) funcList =
      Some (appendExample ""
              (entryOf (mkDecl ("Example_" +:+ suffix) pos)) funcList).
Proof.
  intros Hs Hl.
  assert (He : isExample Lower ("Example_" +:+ suffix) = Some true).
  { unfold isExample.
    change ("Example_" +:+ suffix) with ("Example" +:+ String "_" suffix).
    rewrite isTest_next, DecodeRuneInString_ascii by reflexivity.
    reflexivity. }
  assert (Hr : Split (String "_" suffix) "_"%char = EmptyString :: seg2 :: more).
  { simpl. now rewrite Hs. }
  pose proof (classify_sub_or_method Lower ("Example_" +:+ suffix)
                (String "_" suffix) EmptyString seg2 more eq_refl He Hr) as Hc.
  rewrite Hl in Hc. split; [exact He |]. split; [exact Hc |].
  intros pos funcList. rewrite processDecl_classify. cbn [decl_name].
  now rewrite Hc.
Qed.


(** X19: no name is accepted by [isTest] for two of the prefixes
    ["Test"], ["Benchmark"] and ["Example"], so the order of the tests in
    lines 87-91 decides nothing. *)
Theorem prefixes_exclude_each_other (name : string) :
  (isExample Lower name = Some true ->
   isTest Lower name "Test" = Some false /\
   isTest Lower name "Benchmark" = Some false) /\
  (isTest Lower name "Test" = Some true ->
   isTest Lower name "Benchmark" = Some false /\
   isExample Lower name = Some false) /\
  (isTest Lower name "Benchmark" = Some true ->
   isTest Lower name "Test" = Some false /\
   isExample Lower name = Some false).
Proof.
  unfold isExample.
  split; [| split]; intros H; apply isTest_true_iff in H as (rest & -> & _);
    split; apply isTest_false_iff; intros H;
    apply isTest_true_iff in H as (r & H & _); discriminate H.
Qed.

End MoreNames.

(** ** More concrete runs *)

Lemma sameCollection_refl (g : list (string * list (string * list string))) :
  sameCollection g g.
Proof.
  exists g. split; [reflexivity |].
  induction g as [|a g IH]; constructor; [now split | exact IH].
Qed.

Lemma isTest_ascii_witness :
  byte_of "i" < 0x80 /\
  isTest unicode.Lower_fragment ("Test" +:+ String "i" "fy") "Test" = Some false.
Proof.
  split; [reflexivity |].
  exact (isTest_ascii unicode.Lower_fragment "Test" "i" "fy" eq_refl).
Defined.

Lemma isTest_invalid_utf8_witness :
  unicode.Lower_fragment utf8.RuneError = false /\
  0xF5 <= byte_of (utf8.char_of 0xFF) /\
  isTest unicode.Lower_fragment
    ("Test" +:+ String (utf8.char_of 0xFF) "x") "Test" = Some true.
Proof.
  split; [reflexivity |]. split; [discriminate |].
  apply (isTest_invalid_utf8 unicode.Lower_fragment "Test" (utf8.char_of 0xFF) "x");
    [reflexivity |].
  right. left. discriminate.
Defined.

Lemma example_key_has_no_underscore_witness :
  classify unicode.Lower_fragment "ExampleFoo_Bar_baz" = Some (MethodExample "Foo.Bar") /\
  exists key, ownerKey (MethodExample "Foo.Bar") = Some key /\
    isSubExample key = false /\
    forall a b, key <> a +:+ "_" +:+ b.
Proof.
  split; [reflexivity |].
  exact (example_key_has_no_underscore unicode.Lower_fragment
           "ExampleFoo_Bar_baz" (MethodExample "Foo.Bar") eq_refl eq_refl).
Defined.

Lemma examples_kept_in_order_witness :
  (forall d,
     d ∈ [mkDecl "ExampleFoo" "a_test.go:3:1"; mkDecl "TestFoo" "a_test.go:5:1";
          mkDecl "ExampleFoo_second" "a_test.go:9:1"] ->
     resets unicode.Lower_fragment "Foo" d = false) /\
  exists m',
    processFile unicode.Lower_fragment
      [mkDecl "ExampleFoo" "a_test.go:3:1"; mkDecl "TestFoo" "a_test.go:5:1";
       mkDecl "ExampleFoo_second" "a_test.go:9:1"] ∅ = Some m' /\
    at_key m' "Foo" =
      at_key ∅ "Foo" ++
      examplesFor unicode.Lower_fragment "Foo"
        [mkDecl "ExampleFoo" "a_test.go:3:1"; mkDecl "TestFoo" "a_test.go:5:1";
         mkDecl "ExampleFoo_second" "a_test.go:9:1"].
Proof.
  assert (H : forall d,
     d ∈ [mkDecl "ExampleFoo" "a_test.go:3:1"; mkDecl "TestFoo" "a_test.go:5:1";
          mkDecl "ExampleFoo_second" "a_test.go:9:1"] ->
     resets unicode.Lower_fragment "Foo" d = false).
  { intros d Hd.
    repeat (apply elem_of_cons in Hd as [-> | Hd]; [reflexivity |]).
    inversion Hd. }
  split; [exact H |].
  exact (examples_kept_in_order unicode.Lower_fragment "Foo" _ ∅ H).
Defined.

Lemma examples_before_a_plain_declaration_are_lost_witness :
  resets unicode.Lower_fragment "Foo" (mkDecl "Foo" "a.go:3:1") = true /\
  (forall d',
     d' ∈ [mkDecl "ExampleFoo_second" "a_test.go:9:1"] ->
     resets unicode.Lower_fragment "Foo" d' = false) /\
  exists m',
    processFile unicode.Lower_fragment
      ([mkDecl "ExampleFoo" "a_test.go:3:1"] ++ mkDecl "Foo" "a.go:3:1"
       :: [mkDecl "ExampleFoo_second" "a_test.go:9:1"]) ∅ = Some m' /\
    at_key m' "Foo" =
      examplesFor unicode.Lower_fragment "Foo"
        [mkDecl "ExampleFoo_second" "a_test.go:9:1"].
Proof.
  assert (H : forall d',
     d' ∈ [mkDecl "ExampleFoo_second" "a_test.go:9:1"] ->
     resets unicode.Lower_fragment "Foo" d' = false).
  { intros d Hd.
    repeat (apply elem_of_cons in Hd as [-> | Hd]; [reflexivity |]).
    inversion Hd. }
  split; [reflexivity |]. split; [exact H |].
  exact (examples_before_a_plain_declaration_are_lost unicode.Lower_fragment
           "Foo" [mkDecl "ExampleFoo" "a_test.go:3:1"]
           [mkDecl "ExampleFoo_second" "a_test.go:9:1"]
           (mkDecl "Foo" "a.go:3:1") ∅ eq_refl H).
Defined.

Lemma groups_do_not_collide_witness :
  (forall a b, "demo" <> a +:+ " " +:+ b) /\
  pkgKey "/go" "/" "demo" ("/go/src/" +:+ "x/demo") = "demo in x/demo" /\
  (pkgKey "/go" "/" "demo" ("/go/src/" +:+ "x/demo") =
   pkgKey "/go" "/" "demo" ("/go/src/" +:+ "x/demo") ->
   "demo" = "demo" /\ "x/demo" = "x/demo").
Proof.
  assert (H : forall a b, "demo" <> a +:+ " " +:+ b)
    by exact (Split_single_no_sep "demo" " " eq_refl).
  split; [exact H |].
  exact (groups_do_not_collide "/go" "/" "demo" "demo" "x/demo" "x/demo" H H).
Defined.

Lemma report_shows_every_owner_witness :
  sameCollection
    (groupsOf {["demo in x" := {["Foo" := ["x.go:1:1:" +:+ tab +:+ "ExampleFoo"]]}]})
    (groupsOf {["demo in x" := {["Foo" := ["x.go:1:1:" +:+ tab +:+ "ExampleFoo"]]}]}) /\
  pkg_String {["demo in x" := {["Foo" := ["x.go:1:1:" +:+ tab +:+ "ExampleFoo"]]}]} =
    "Package demo in x" +:+ newline +:+ tab +:+ "Foo" +:+ newline
    +:+ tab +:+ tab +:+ "x.go:1:1:" +:+ tab +:+ "ExampleFoo" +:+ newline /\
  occursIn (tab +:+ tab +:+ ("x.go:1:1:" +:+ tab +:+ "ExampleFoo") +:+ newline)
    (pkg_String {["demo in x" := {["Foo" := ["x.go:1:1:" +:+ tab +:+ "ExampleFoo"]]}]}).
Proof.
  split; [apply sameCollection_refl |]. split; [vm_compute; reflexivity |].
  refine (proj2 (proj2 (report_shows_every_owner
           {["demo in x" := {["Foo" := ["x.go:1:1:" +:+ tab +:+ "ExampleFoo"]]}]}
           _ "demo in x" {["Foo" := ["x.go:1:1:" +:+ tab +:+ "ExampleFoo"]]}
           "Foo" ["x.go:1:1:" +:+ tab +:+ "ExampleFoo"]
           (sameCollection_refl _) _ _)) _ _).
  - vm_compute. reflexivity.
  - vm_compute. reflexivity.
  - apply list_elem_of_here.
Defined.

Lemma report_length_in_any_order_witness :
  sameCollection
    (groupsOf {["demo in x" := {["Foo" := []; "Bar" := ["e"]]}]})
    [("demo in x", [("Foo", []); ("Bar", ["e"])])] /\
  len (renderGroups [("demo in x", [("Foo", []); ("Bar", ["e"])])]) =
  len (pkg_String {["demo in x" := {["Foo" := []; "Bar" := ["e"]]}]}).
Proof.
  assert (H : sameCollection
    (groupsOf {["demo in x" := {["Foo" := []; "Bar" := ["e"]]}]})
    [("demo in x", [("Foo", []); ("Bar", ["e"])])]).
  { exists (groupsOf {["demo in x" := {["Foo" := []; "Bar" := ["e"]]}]}).
    split; [reflexivity |]. vm_compute.
    constructor; [| constructor]. split; [reflexivity |]. cbn [snd].
    first [ apply perm_swap | reflexivity ]. }
  split; [exact H |].
  exact (report_length_in_any_order _ _ H).
Defined.

Lemma usage_names_the_executable_witness :
  exists dir cmd,
    main unicode.Lower_fragment
      (mkInvocation (inl "/usr/local/bin/listexamples") ["listexamples"]
         (fun s => inl s) "/go" "/go" "/" (fun _ => FsFile "x")) =
      Exit1 (usage cmd "/") /\
    "/usr/local/bin/listexamples" = dir +:+ cmd /\
    (forall a b, cmd <> a +:+ String "/" b) /\
    (dir = EmptyString \/ exists d, dir = d +:+ "/").
Proof.
  apply (usage_names_the_executable unicode.Lower_fragment
           (mkInvocation (inl "/usr/local/bin/listexamples") ["listexamples"]
              (fun s => inl s) "/go" "/go" "/" (fun _ => FsFile "x"))
           "/usr/local/bin/listexamples" eq_refl).
  discriminate.
Defined.

Lemma suffixed_package_example_witness :
  Split "second" "_"%char = ["second"] /\
  unicode.IsLower unicode.Lower_fragment
    (fst (utf8.DecodeRuneInString "second")) = true /\
  classify unicode.Lower_fragment ("Example_" +:+ "second") = Some (SubExample "").
Proof.
  split; [reflexivity |]. split; [reflexivity |].
  exact (proj1 (proj2 (suffixed_package_example unicode.Lower_fragment
                         "second" "second" [] eq_refl eq_refl))).
Defined.

Lemma entries_after_a_file_are_not_walked_witness :
  Forall (fun e => exists p k es, e = FsDir p k es) [FsDir "/go/src/x/.hidden" [] []] /\
  Walk (FsDir "/go/src/x" []
          ([FsDir "/go/src/x/.hidden" [] []]
           ++ FsFile "/go/src/x/a.go" :: [FsDir "/go/src/x/sub" [] []])) =
    [("/go/src/x", []); ("/go/src/x/.hidden", [])].
Proof.
  assert (H : Forall (fun e => exists p k es, e = FsDir p k es)
                [FsDir "/go/src/x/.hidden" [] []]).
  { constructor; [| constructor]. now exists "/go/src/x/.hidden", [], []. }
  split; [exact H |].
  exact (proj2 (proj2 (entries_after_a_file_are_not_walked
           "/go/src/x" [] [FsDir "/go/src/x/.hidden" [] []]
           [FsDir "/go/src/x/sub" [] []] "/go/src/x/a.go")) H).
Defined.

Lemma prefixes_exclude_each_other_witness :
  isExample unicode.Lower_fragment "ExampleTest" = Some true /\
  isTest unicode.Lower_fragment "ExampleTest" "Test" = Some false /\
  isTest unicode.Lower_fragment "ExampleTest" "Benchmark" = Some false.
Proof.
  split; [reflexivity |].
  exact (proj1 (prefixes_exclude_each_other unicode.Lower_fragment "ExampleTest")
           eq_refl).
Defined.

